(** * 7 e Mezzo: the table ledger of [src/components/ActiveGame.tsx]

    The React component [ActiveGame] keeps the whole table in [useState]
    cells and changes them from event handlers.  This development embeds the
    handlers as functions on the record of those cells, the conditional
    rendering of the buttons as a dispatch function on user events, and the
    JavaScript [number] type as an interface, implemented by IEEE-754
    binary64, the arithmetic the browser runs. *)

From Stdlib Require Import ZArith Bool List Lia Permutation.
From Stdlib Require Import Strings.String Strings.Ascii.
From Stdlib Require PrimFloat FloatOps SpecFloat FloatAxioms.
Import ListNotations.

Set Warnings "-inexact-float".
Set Implicit Arguments.

Local Open Scope list_scope.
Local Open Scope string_scope.
Local Open Scope Z_scope.

(** ** JavaScript numbers *)

(** The operations of [number] the ledger uses.  [num_lt] and [num_le] are
    [<] and [<=] ([a > b] is [num_lt b a]); [lit_0_01] is the literal [0.01];
    [fromZ] reads an integer literal or an array length. *)
Class Number (num : Type) : Type := {
  fromZ : Z -> num;
  lit_0_01 : num;
  num_add : num -> num -> num;
  num_sub : num -> num -> num;
  num_mul : num -> num -> num;
  num_div : num -> num -> num;
  num_neg : num -> num;
  num_lt : num -> num -> bool;
  num_le : num -> num -> bool;
  isNaN : num -> bool;
  Math_abs : num -> num;
  Math_round : num -> num
}.

Declare Scope num_scope.
Delimit Scope num_scope with num.
Infix "+" := num_add : num_scope.
Infix "-" := num_sub : num_scope.
Infix "*" := num_mul : num_scope.
Infix "/" := num_div : num_scope.
Notation "- x" := (num_neg x) : num_scope.
Infix "<?" := num_lt : num_scope.
Infix "<=?" := num_le : num_scope.
Notation "x >? y" := (num_lt y x) : num_scope.

(** *** binary64, as the browser computes *)

Module Binary64.
Import PrimFloat FloatOps SpecFloat.

(** An integer as the nearest double (exact below 2^53). *)
Definition of_Z (z : Z) : float :=
  match z with
  | Z0 => zero
  | _ => SF2Prim (binary_normalize prec emax z 0 false)
  end.

(** [Math.round]: the nearest integer, ties towards +infinity; an
    argument that is already integral (exponent >= 0), an infinity or NaN
    is returned as it is, and a result of zero keeps the sign of the
    argument.  For a double [sm * 2^e] with [e < 0] the result is
    [floor ((2*sm + 2^-e) / 2^(1-e))], computed on the integers. *)
Definition round (x : float) : float :=
  match Prim2SF x with
  | S754_finite s m e =>
      if 0 <=? e then x
      else
        let sm := if s then Zneg m else Zpos m in
        let r := Z.shiftr (2 * sm + Z.shiftl 1 (- e)) (1 - e) in
        if r =? 0 then (if s then neg_zero else zero) else of_Z r
  | _ => x
  end.

#[global] Instance number : Number float := {|
  fromZ := of_Z;
  lit_0_01 := 0.01%float;
  num_add := add;
  num_sub := sub;
  num_mul := mul;
  num_div := div;
  num_neg := opp;
  num_lt := ltb;
  num_le := leb;
  isNaN := is_nan;
  Math_abs := abs;
  Math_round := round
|}.
End Binary64.

(** ** Data model ([src/types.ts]) *)

Module Player.
Record t : Type := mk {
  id : string;
  name : string;
  isDealer : bool;
  roundsPlayed : Z
}.
End Player.

(** The identifiers and clock readings a handler obtains while it runs:
    [randomUUID k] is the result of its k-th call of [crypto.randomUUID()],
    [Date_now k] that of its k-th call of [Date.now()] (both counted from 0,
    in program order). *)
Record Env : Type := {
  randomUUID : nat -> string;
  Date_now : nat -> Z
}.

Module GameLog.
Inductive type_t : Type := Ante | Win | Loss | Collect | Info.

(** The template literals of the log messages, with the interpolated
    values kept as arguments.  [challengerName] is an optional parameter
    of [performDealerSwitch], hence the [option]. *)
Inductive message_t (num : Type) : Type :=
| TuttiPagano (ante : num)
| Sbancato (challengerName : option string) (nextDealerName : string)
| VinceLaMano (challengerName : option string)
| FineTurno (currentDealerName : string)
| PerdePaga (challengerName : string)
| IniziaIlGiro (newGameRound : Z).
Arguments Sbancato {num}.
Arguments VinceLaMano {num}.
Arguments FineTurno {num}.
Arguments PerdePaga {num}.
Arguments IniziaIlGiro {num}.

Record t (num : Type) : Type := mk {
  id : string;
  timestamp : Z;
  message : message_t num;
  amount : option num;
  type : type_t
}.
End GameLog.

Module GameState.
Record t (num : Type) : Type := mk {
  players : list Player.t;
  pot : num;
  ante : num;
  currentDealerId : option string;
  roundActive : bool;
  logs : list (GameLog.t num);
  gameRound : Z;
  playersPlayedThisRound : list string
}.
End GameState.

(** ** Array helpers *)

(** [arr.findIndex(f)]: the first index whose element satisfies [f], or -1. *)
Fixpoint findIndex {A : Type} (f : A -> bool) (l : list A) : Z :=
  match l with
  | [] => -1
  | x :: t => if f x then 0
              else let r := findIndex f t in if r <? 0 then -1 else r + 1
  end.

(** [arr[i]]: [None] stands for [undefined] (index out of range). *)
Definition index {A : Type} (l : list A) (i : Z) : option A :=
  if i <? 0 then None else nth_error l (Z.to_nat i).

(** [arr.map((x, i) => f x i)]. *)
Fixpoint mapi_from {A B : Type} (i : nat) (f : A -> nat -> B) (l : list A)
  : list B :=
  match l with
  | [] => []
  | x :: t => f x i :: mapi_from (S i) f t
  end.

(** JavaScript truthiness of a [string | null]. *)
Definition truthy (s : option string) : bool :=
  match s with
  | Some s => negb (String.eqb s "")
  | None => false
  end.

(** [p.id === x] for [x : string | null]. *)
Definition id_is (x : option string) (p : Player.t) : bool :=
  match x with
  | Some s => String.eqb (Player.id p) s
  | None => false
  end.

(** [arr.includes(s)]. *)
Definition includes (l : list string) (s : string) : bool :=
  existsb (String.eqb s) l.

(** ** The component state and its handlers ([ActiveGame.tsx]) *)

(** The [useState] cells of [ActiveGame].  [betAmount] is the text of the
    amount field, kept as the number [parseFloat] reads from it: [None] is
    the empty field (an [<input type="number">] hands over the empty string
    for any text that is not a number).  [showExitConfirm] only opens the
    exit dialog and is left out. *)
Record Component (num : Type) : Type := {
  gameState : GameState.t num;
  betAmount : option num;
  selectedChallengerId : string;
  errorMsg : option string
}.

Inductive Reason : Type := collect | sbancato.
Inductive Winner : Type := player | dealer.

Definition is_player (w : Winner) : bool :=
  match w with player => true | dealer => false end.

Section Ledger.
Context {num : Type} {N : Number num}.

Local Abbreviation GameState := (GameState.t num).
Local Abbreviation GameLog := (GameLog.t num).
Local Abbreviation Component := (Component num).

(** [const toCurrency = (val) => Math.round(val * 100) / 100] *)
Definition toCurrency (val : num) : num :=
  (Math_round (val * fromZ 100) / fromZ 100)%num.

(** [const isApproximatelyZero = (val) => Math.abs(val) < 0.01] *)
Definition isApproximatelyZero (val : num) : bool :=
  (Math_abs val <? lit_0_01)%num.

(** The state [useState] is initialised with when the component mounts. *)
Definition initialGameState (e : Env) (initialPlayers : list string)
    (anteAmount : num) : GameState :=
  {| GameState.players :=
       mapi_from 0
         (fun name i =>
            {| Player.id := randomUUID e i;
               Player.name := name;
               Player.isDealer := Nat.eqb i 0;
               Player.roundsPlayed := 0 |})
         initialPlayers;
     GameState.pot := fromZ 0;
     GameState.ante := anteAmount;
     GameState.currentDealerId := None;
     GameState.roundActive := false;
     GameState.logs := [];
     GameState.gameRound := 1;
     GameState.playersPlayedThisRound := [] |}.

(** The [useEffect] "Initialize first dealer", run after a render. *)
Definition initFirstDealer (g : GameState) : GameState :=
  if negb (truthy (GameState.currentDealerId g))
     && (0 <? Z.of_nat (List.length (GameState.players g)))
  then
    match GameState.players g with
    | p0 :: _ =>
        {| GameState.players := GameState.players g;
           GameState.pot := GameState.pot g;
           GameState.ante := GameState.ante g;
           GameState.currentDealerId := Some (Player.id p0);
           GameState.roundActive := GameState.roundActive g;
           GameState.logs := GameState.logs g;
           GameState.gameRound := GameState.gameRound g;
           GameState.playersPlayedThisRound :=
             GameState.playersPlayedThisRound g |}
    | [] => g
    end
  else g.

(** [players.find(p => p.id === gameState.currentDealerId)] *)
Definition getCurrentDealer (g : GameState) : option Player.t :=
  find (id_is (GameState.currentDealerId g)) (GameState.players g).

(** The [for] loop of [getNextChallengerId], over [i = 1 .. length-1]. *)
Fixpoint scanFrom (g : GameState) (startIndex : Z) (steps : list nat) : string :=
  match steps with
  | [] => ""
  | i :: rest =>
      let nextIndex :=
        Z.rem (startIndex + Z.of_nat i)
              (Z.of_nat (List.length (GameState.players g))) in
      match index (GameState.players g) nextIndex with
      | Some candidate =>
          if negb (id_is (GameState.currentDealerId g) candidate)
          then Player.id candidate
          else scanFrom g startIndex rest
      | None => ""
      end
  end.

(** "Helper to find the next eligible challenger": the first player after
    the reference (after the dealer when there is none) who is not the
    dealer, or the empty string. *)
Definition getNextChallengerId (g : GameState)
    (currentReferenceId : option string) : string :=
  let players := GameState.players g in
  if (Z.of_nat (List.length players) =? 0)
     || negb (truthy (GameState.currentDealerId g))
  then ""
  else
    let startIndex :=
      if truthy currentReferenceId
      then findIndex (id_is currentReferenceId) players
      else findIndex (id_is (GameState.currentDealerId g)) players in
    if startIndex =? -1 then ""
    else scanFrom g startIndex (seq 1 (List.length players - 1)%nat).

(** [addLog], as the state updater it queues; [k] numbers the
    identifier and the clock reading it draws. *)
Definition addLog (e : Env) (k : nat) (message : GameLog.message_t num)
    (type : GameLog.type_t) (amount : option num) (prev : GameState)
    : GameState :=
  {| GameState.players := GameState.players prev;
     GameState.pot := GameState.pot prev;
     GameState.ante := GameState.ante prev;
     GameState.currentDealerId := GameState.currentDealerId prev;
     GameState.roundActive := GameState.roundActive prev;
     GameState.logs :=
       {| GameLog.id := randomUUID e k;
          GameLog.timestamp := Date_now e k;
          GameLog.message := message;
          GameLog.amount := amount;
          GameLog.type := type |} :: GameState.logs prev;
     GameState.gameRound := GameState.gameRound prev;
     GameState.playersPlayedThisRound :=
       GameState.playersPlayedThisRound prev |}.

(** "Raccogli Puntate": every player pays the ante into the pot. *)
Definition startRound (e : Env) (c : Component) : Component :=
  let g := gameState c in
  let totalAnte :=
    toCurrency
      (fromZ (Z.of_nat (List.length (GameState.players g))) * GameState.ante g)%num in
  let firstChallengerId := getNextChallengerId g None in
  let prev1 :=
    {| GameState.players := GameState.players g;
       GameState.pot := toCurrency (GameState.pot g + totalAnte)%num;
       GameState.ante := GameState.ante g;
       GameState.currentDealerId := GameState.currentDealerId g;
       GameState.roundActive := true;
       GameState.logs := GameState.logs g;
       GameState.gameRound := GameState.gameRound g;
       GameState.playersPlayedThisRound :=
         GameState.playersPlayedThisRound g |} in
  {| gameState :=
       addLog e 0 (GameLog.TuttiPagano (GameState.ante g)) GameLog.Ante
              (Some totalAnte) prev1;
     betAmount := betAmount c;
     selectedChallengerId := firstChallengerId;
     errorMsg := errorMsg c |}.

(** "Logic to switch dealer (used by Close Bank and Sbancato)".  [None]
    is the [TypeError] of reading [.name] of [undefined], thrown before
    any state is set. *)
Definition performDealerSwitch (e : Env) (reason : Reason) (finalPot : num)
    (challengerName : option string) (c : Component) : option Component :=
  let g := gameState c in
  let currentIdx :=
    findIndex (id_is (GameState.currentDealerId g)) (GameState.players g) in
  let nextIdx :=
    Z.rem (currentIdx + 1) (Z.of_nat (List.length (GameState.players g))) in
  match index (GameState.players g) nextIdx with
  | None => None
  | Some nextDealer =>
      let newLogs : option (list GameLog) :=
        match reason with
        | sbancato =>
            Some
              [ {| GameLog.id := randomUUID e 0;
                   GameLog.timestamp := Date_now e 0;
                   GameLog.message :=
                     GameLog.Sbancato challengerName (Player.name nextDealer);
                   GameLog.amount := Some (- finalPot)%num;
                   GameLog.type := GameLog.Loss |};
                {| GameLog.id := randomUUID e 1;
                   GameLog.timestamp := Date_now e 1 - 1;
                   GameLog.message := GameLog.VinceLaMano challengerName;
                   GameLog.amount := Some (- finalPot)%num;
                   GameLog.type := GameLog.Loss |} ]
        | collect =>
            match index (GameState.players g) currentIdx with
            | None => None
            | Some currentDealer =>
                Some
                  [ {| GameLog.id := randomUUID e 0;
                       GameLog.timestamp := Date_now e 0;
                       GameLog.message :=
                         GameLog.FineTurno (Player.name currentDealer);
                       GameLog.amount := Some finalPot;
                       GameLog.type := GameLog.Collect |} ]
            end
        end in
      match newLogs with
      | None => None
      | Some newLogs =>
          Some
            {| gameState :=
                 {| GameState.players :=
                      map (fun p =>
                             {| Player.id := Player.id p;
                                Player.name := Player.name p;
                                Player.isDealer :=
                                  String.eqb (Player.id p)
                                             (Player.id nextDealer);
                                Player.roundsPlayed :=
                                  Player.roundsPlayed p |})
                          (GameState.players g);
                    GameState.pot := fromZ 0;
                    GameState.ante := GameState.ante g;
                    GameState.currentDealerId := Some (Player.id nextDealer);
                    GameState.roundActive := false;
                    GameState.logs := (newLogs ++ GameState.logs g)%list;
                    GameState.gameRound := 1;
                    GameState.playersPlayedThisRound := [] |};
               betAmount := None;
               selectedChallengerId := "";
               errorMsg := None |}
      end
  end.

(** "Helper to handle orbit/round logic". *)
Definition updateRoundProgress (e : Env) (state : GameState)
    (currentPlayerId : string) : GameState :=
  let updatedPlayed :=
    if negb (includes (GameState.playersPlayedThisRound state) currentPlayerId)
    then (GameState.playersPlayedThisRound state ++ [currentPlayerId])%list
    else GameState.playersPlayedThisRound state in
  let numberOfChallengers :=
    Z.of_nat (List.length (GameState.players state)) - 1 in
  if Z.of_nat (List.length updatedPlayed) >=? numberOfChallengers
  then
    let newGameRound := GameState.gameRound state + 1 in
    {| GameState.players := GameState.players state;
       GameState.pot := GameState.pot state;
       GameState.ante := GameState.ante state;
       GameState.currentDealerId := GameState.currentDealerId state;
       GameState.roundActive := GameState.roundActive state;
       GameState.logs :=
         {| GameLog.id := randomUUID e 1;
            GameLog.timestamp := Date_now e 1;
            GameLog.message := GameLog.IniziaIlGiro newGameRound;
            GameLog.amount := None;
            GameLog.type := GameLog.Info |} :: GameState.logs state;
       GameState.gameRound := newGameRound;
       GameState.playersPlayedThisRound := [] |}
  else
    {| GameState.players := GameState.players state;
       GameState.pot := GameState.pot state;
       GameState.ante := GameState.ante state;
       GameState.currentDealerId := GameState.currentDealerId state;
       GameState.roundActive := GameState.roundActive state;
       GameState.logs := GameState.logs state;
       GameState.gameRound := GameState.gameRound state;
       GameState.playersPlayedThisRound := updatedPlayed |}.

(** The three state changes that close a non-bust hand: "Auto-select next
    player" (computed from the [gameState] the handler was created with),
    [setBetAmount('')] and [setErrorMsg(null)]. *)
Definition afterHand (g : GameState) (selected : string) (g' : GameState)
    : Component :=
  {| gameState := g';
     betAmount := None;
     selectedChallengerId := getNextChallengerId g (Some selected);
     errorMsg := None |}.

(** The [onClick] of the two result buttons; [winner] is ['player'] for
    "Vince Sfidante" and ['dealer'] for "Vince Banco".  The amount is
    [parseFloat(betAmount)], the challenger the player whose id is
    [selectedChallengerId].  A plain [return] hands the component back as
    it is. *)
Definition handleTransaction (e : Env) (winner : Winner) (c : Component)
    : option Component :=
  let g := gameState c in
  match betAmount c with
  | None => Some c
  | Some amount =>
      if isNaN amount || (amount <=? fromZ 0)%num then Some c
      else if is_player winner
              && (amount - GameState.pot g >? lit_0_01)%num
      then
        Some {| gameState := g;
                betAmount := betAmount c;
                selectedChallengerId := selectedChallengerId c;
                errorMsg :=
                  Some "Impossibile pagare più del piatto disponibile." |}
      else
        match find (fun p => String.eqb (Player.id p) (selectedChallengerId c))
                   (GameState.players g) with
        | None => Some c
        | Some challenger =>
            match winner with
            | player =>
                let remainingPot := toCurrency (GameState.pot g - amount)%num in
                if isApproximatelyZero remainingPot
                then performDealerSwitch e sbancato amount
                                         (Some (Player.name challenger)) c
                else
                  Some
                    (afterHand g (selectedChallengerId c)
                       (updateRoundProgress e
                          {| GameState.players := GameState.players g;
                             GameState.pot := remainingPot;
                             GameState.ante := GameState.ante g;
                             GameState.currentDealerId :=
                               GameState.currentDealerId g;
                             GameState.roundActive := GameState.roundActive g;
                             GameState.logs :=
                               {| GameLog.id := randomUUID e 0;
                                  GameLog.timestamp := Date_now e 0;
                                  GameLog.message :=
                                    GameLog.VinceLaMano
                                      (Some (Player.name challenger));
                                  GameLog.amount := Some (- amount)%num;
                                  GameLog.type := GameLog.Loss |}
                               :: GameState.logs g;
                             GameState.gameRound := GameState.gameRound g;
                             GameState.playersPlayedThisRound :=
                               GameState.playersPlayedThisRound g |}
                          (Player.id challenger)))
            | dealer =>
                let updatedPot := toCurrency (GameState.pot g + amount)%num in
                Some
                  (afterHand g (selectedChallengerId c)
                     (updateRoundProgress e
                        {| GameState.players := GameState.players g;
                           GameState.pot := updatedPot;
                           GameState.ante := GameState.ante g;
                           GameState.currentDealerId :=
                             GameState.currentDealerId g;
                           GameState.roundActive := GameState.roundActive g;
                           GameState.logs :=
                             {| GameLog.id := randomUUID e 0;
                                GameLog.timestamp := Date_now e 0;
                                GameLog.message :=
                                  GameLog.PerdePaga (Player.name challenger);
                                GameLog.amount := Some amount;
                                GameLog.type := GameLog.Win |}
                             :: GameState.logs g;
                           GameState.gameRound := GameState.gameRound g;
                           GameState.playersPlayedThisRound :=
                             GameState.playersPlayedThisRound g |}
                        (Player.id challenger)))
            end
        end
  end.

(** "Chiudi Banco & Passa Turno": the dealer collects what is left. *)
Definition closeBank (e : Env) (c : Component) : option Component :=
  match getCurrentDealer (gameState c) with
  | None => Some c
  | Some _ =>
      performDealerSwitch e collect (GameState.pot (gameState c)) None c
  end.

(** "Validate bet amount": [val] is the new text of the amount field. *)
Definition handleBetChange (val : option num) (c : Component) : Component :=
  let tooMuch :=
    match val with
    | None => false
    | Some amount =>
        negb (isNaN amount)
        && (amount >? GameState.pot (gameState c))%num
        && negb (isApproximatelyZero (amount - GameState.pot (gameState c))%num)
    end in
  {| gameState := gameState c;
     betAmount := val;
     selectedChallengerId := selectedChallengerId c;
     errorMsg :=
       if tooMuch then Some "La puntata non può superare il piatto!"
       else None |}.

(** ** Rendering and user events *)

(** What React does after a handler has run: it renders again and runs the
    effect. *)
Definition afterRender (c : Component) : Component :=
  {| gameState := initFirstDealer (gameState c);
     betAmount := betAmount c;
     selectedChallengerId := selectedChallengerId c;
     errorMsg := errorMsg c |}.

(** Mounting [<ActiveGame initialPlayers anteAmount />]. *)
Definition mount (e : Env) (initialPlayers : list string) (anteAmount : num)
    : Component :=
  afterRender
    {| gameState := initialGameState e initialPlayers anteAmount;
       betAmount := None;
       selectedChallengerId := "";
       errorMsg := None |}.

(** The user events of the "Main Action Card".  [ChangeBet] is the
    [onChange] of the amount field; the three quick-bet buttons call the
    same [handleBetChange] with a text of their own. *)
Inductive Event : Type :=
| ClickStartRound (e : Env)
| ChangeChallenger (value : string)
| ChangeBet (val : option num)
| ClickTransaction (winner : Winner) (e : Env)
| ClickCloseBank (e : Env).

(** [const hasError = !!errorMsg] *)
Definition hasError (c : Component) : bool :=
  match errorMsg c with
  | Some m => negb (String.eqb m "")
  | None => false
  end.

(** The [<option>] values of the challenger [<select>]. *)
Definition challengerOptions (g : GameState) : list string :=
  "" :: map Player.id
            (filter (fun p => negb (Player.isDealer p)) (GameState.players g)).

(** [disabled={!selectedChallengerId || !betAmount || hasError}] *)
Definition transactionDisabled (c : Component) : bool :=
  String.eqb (selectedChallengerId c) ""
  || match betAmount c with None => true | Some _ => false end
  || hasError c.

(** One user event.  The card shows the start-round button while
    [!gameState.roundActive] and the hand form (challenger, amount, the two
    result buttons, close bank) otherwise; an event on an element that is
    not rendered or is disabled cannot occur and leaves the component as it
    is, and so does a handler that throws. *)
Definition dispatch (ev : Event) (c : Component) : Component :=
  let formShown := GameState.roundActive (gameState c) in
  match ev with
  | ClickStartRound e =>
      if negb formShown then afterRender (startRound e c) else c
  | ChangeChallenger value =>
      if formShown && includes (challengerOptions (gameState c)) value
      then {| gameState := gameState c;
              betAmount := betAmount c;
              selectedChallengerId := value;
              errorMsg := errorMsg c |}
      else c
  | ChangeBet val =>
      if formShown then handleBetChange val c else c
  | ClickTransaction winner e =>
      if formShown && negb (transactionDisabled c)
      then match handleTransaction e winner c with
           | Some c' => afterRender c'
           | None => c
           end
      else c
  | ClickCloseBank e =>
      if formShown && negb (hasError c)
      then match closeBank e c with
           | Some c' => afterRender c'
           | None => c
           end
      else c
  end.

(** A session: the events in the order they happen. *)
Definition session (evs : list Event) (c : Component) : Component :=
  fold_left (fun c ev => dispatch ev c) evs c.

(** ** The operations of the specification, in terms of the handlers *)

(** [recordHand(state, challengerId, amount, outcome)]: the result handler
    run with the form holding that challenger and that amount. *)
Definition recordHand (e : Env) (g : GameState) (challengerId : string)
    (amount : num) (outcome : Winner) : option Component :=
  handleTransaction e outcome
    {| gameState := g;
       betAmount := Some amount;
       selectedChallengerId := challengerId;
       errorMsg := None |}.

(** [handleStart] of [GameSetup.tsx]: the arguments [onStartGame] is called
    with, or [None] when it is not called. *)
Definition handleStart (names : list string) (ante : num)
    : option (list string * num) :=
  if (2 <=? List.length names)%nat then Some (names, ante) else None.

(** [initialize(names, ante)]: [handleStart], then [App] shows
    [<ActiveGame initialPlayers={players} anteAmount={ante} />]. *)
Definition initialize (e : Env) (names : list string) (ante : num)
    : option Component :=
  match handleStart names ante with
  | Some (players, anteAmount) => Some (mount e players anteAmount)
  | None => None
  end.

(** ** Vocabulary of the properties *)

(** What a player is apart from the dealer flag. *)
Definition identity (p : Player.t) : string * string * Z :=
  (Player.id p, Player.name p, Player.roundsPlayed p).

(** The roster and the ante of [g'] are those of [g]: same players in the
    same order with the same [id], [name] and [roundsPlayed]. *)
Definition sameRoster (g g' : GameState) : Prop :=
  map identity (GameState.players g') = map identity (GameState.players g)
  /\ GameState.ante g' = GameState.ante g.

(** The player [p] with the dealer flag of a table whose dealer is [d]. *)
Definition flagDealer (d : string) (p : Player.t) : Player.t :=
  {| Player.id := Player.id p;
     Player.name := Player.name p;
     Player.isDealer := String.eqb (Player.id p) d;
     Player.roundsPlayed := Player.roundsPlayed p |}.

(** The ids of the challengers: every player but the current dealer. *)
Definition challengers (g : GameState) : list string :=
  filter (fun x => negb (match GameState.currentDealerId g with
                         | Some d => String.eqb x d
                         | None => false
                         end))
         (map Player.id (GameState.players g)).

(** [g'] is what dealer rotation makes of [g]: a player of the table is the
    new dealer and the flags say so, and the round is over. *)
Definition dealerRotated (g g' : GameState) : Prop :=
  exists next : Player.t,
    In next (GameState.players g)
    /\ GameState.currentDealerId g' = Some (Player.id next)
    /\ GameState.players g'
       = map (flagDealer (Player.id next)) (GameState.players g)
    /\ GameState.pot g' = fromZ 0
    /\ GameState.roundActive g' = false
    /\ GameState.gameRound g' = 1
    /\ GameState.playersPlayedThisRound g' = [].

(** The operations of the ledger after initialization. *)
Inductive Operation : Type :=
| StartRound
| RecordHand (challengerId : string) (amount : num) (outcome : Winner)
| CloseBank.

Definition perform (e : Env) (op : Operation) (c : Component)
    : option Component :=
  match op with
  | StartRound => Some (startRound e c)
  | RecordHand challengerId amount outcome =>
      recordHand e (gameState c) challengerId amount outcome
  | CloseBank => closeBank e c
  end.

(** The three checks of [handleTransaction] on the amount. *)
Definition validAmount (amount : num) : bool :=
  negb (isNaN amount || (amount <=? fromZ 0)%num).

Definition exceedsPot (g : GameState) (amount : num) : bool :=
  (amount - GameState.pot g >? lit_0_01)%num.

Definition busts (g : GameState) (amount : num) : bool :=
  isApproximatelyZero (toCurrency (GameState.pot g - amount)%num).

(** One call of [recordHand], with the identifiers and clock readings it
    draws. *)
Record Hand : Type := {
  challengerId : string;
  amount : num;
  outcome : Winner;
  env : Env
}.

(** The hand passes the checks on its amount and does not empty the pot. *)
Definition nonBustHand (g : GameState) (h : Hand) : bool :=
  validAmount (amount h)
  && match outcome h with
     | player => negb (exceedsPot g (amount h)) && negb (busts g (amount h))
     | dealer => true
     end.

Definition playHand (h : Hand) (g : GameState) : option GameState :=
  match recordHand (env h) g (challengerId h) (amount h) (outcome h) with
  | Some c' => Some (gameState c')
  | None => None
  end.

(** Hands played one after the other, each on the state the previous one
    left. *)
Fixpoint playHands (hs : list Hand) (g : GameState) : option GameState :=
  match hs with
  | [] => Some g
  | h :: rest =>
      match playHand h g with
      | Some g' => playHands rest g'
      | None => None
      end
  end.

(** The list [updatedPlayed] of [updateRoundProgress]: the played list
    with [currentPlayerId] pushed unless it is there already. *)
Definition updatedPlayed (state : GameState) (currentPlayerId : string)
    : list string :=
  if negb (includes (GameState.playersPlayedThisRound state) currentPlayerId)
  then (GameState.playersPlayedThisRound state ++ [currentPlayerId])%list
  else GameState.playersPlayedThisRound state.

(** Every hand of the sequence is a non-bust hand on the state it meets. *)
Fixpoint allNonBust (hs : list Hand) (g : GameState) : bool :=
  match hs with
  | [] => true
  | h :: rest =>
      nonBustHand g h
      && match playHand h g with
         | Some g' => allNonBust rest g'
         | None => false
         end
  end.

(** The set of players who have played holds challengers only, and fewer
    than there are players. *)
Definition playedOnlyChallengers (g : GameState) : Prop :=
  (forall x, In x (GameState.playersPlayedThisRound g) ->
             In x (map Player.id (GameState.players g))
             /\ GameState.currentDealerId g <> Some x)
  /\ Z.of_nat (List.length (GameState.playersPlayedThisRound g))
     <= Z.of_nat (List.length (GameState.players g)) - 1.

(** The invariant of a running table: no player has the empty id, the
    current dealer is a player and the dealer flags say who it is, the
    selected challenger, if any, is a player other than the dealer, and the
    played list holds challengers only. *)
Definition tableInvariant (c : Component) : Prop :=
  let g := gameState c in
  ~ In "" (map Player.id (GameState.players g))
  /\ (exists d : string,
        GameState.currentDealerId g = Some d
        /\ In d (map Player.id (GameState.players g))
        /\ (forall p, In p (GameState.players g) ->
                      Player.isDealer p = String.eqb (Player.id p) d)
        /\ (selectedChallengerId c = ""
            \/ (In (selectedChallengerId c)
                    (map Player.id (GameState.players g))
                /\ selectedChallengerId c <> d)))
  /\ playedOnlyChallengers g.

End Ledger.

(** ** Tables for the examples *)

Import PrimFloat.

(** Identifiers "a", "b", "c", ... in the order they are drawn, and a clock
    that ticks once per call. *)
Definition demoEnv : Env :=
  {| randomUUID := fun k => String (ascii_of_nat (97 + k)) "";
     Date_now := fun k => 1700000000000 + Z.of_nat k |}.

(** Three players A, B, C with an ante of 0.20, in binary64: the table as
    it is mounted, and after "Raccogli Puntate". *)
Definition tableABC : Component PrimFloat.float :=
  mount demoEnv ["A"; "B"; "C"] 0.2%float.

Definition roundABC : Component PrimFloat.float :=
  dispatch (ClickStartRound demoEnv) tableABC.

(** Two players A, B with an ante of 0.05, in binary64, as mounted. *)
Definition tableAB : Component PrimFloat.float :=
  mount demoEnv ["A"; "B"] 0.05%float.


(** Proves that the strings of a literal list are pairwise distinct. *)
Ltac distinct_strings :=
  repeat (apply NoDup_cons; [cbn; intuition discriminate|]); apply NoDup_nil.

(** ** The setup screen ([src/components/GameSetup.tsx]) *)

(** [arr.filter((_, i) => i !== index)] *)
Definition filterOutIndex {A : Type} (index : nat) (l : list A) : list A :=
  map fst
      (filter (fun xi => negb (Nat.eqb (snd xi) index))
              (combine l (seq 0 (List.length l)))).

(** [arr.splice(start, 1)]: the array without the element at [start], and
    that element ([None] is [undefined]: nothing was there). *)
Definition spliceOut {A : Type} (start : nat) (l : list A)
    : list A * option A :=
  ((firstn start l ++ skipn (S start) l)%list, nth_error l start).

(** [arr.splice(start, 0, item)]: [item] inserted before position [start],
    or at the end when [start] is beyond it. *)
Definition spliceIn {A : Type} (start : nat) (item : A) (l : list A) : list A :=
  (firstn start l ++ item :: skipn start l)%list.

(** [arr[index] = value] on a copy of [arr]: the entry is replaced, or
    appended when [index] is the length; beyond that JavaScript leaves
    holes and the result is no array of strings any more ([None]). *)
Definition assignAt {A : Type} (index : nat) (value : A) (l : list A)
    : option (list A) :=
  if (index <? List.length l)%nat
  then Some (firstn index l ++ value :: skipn (S index) l)%list
  else if (index =? List.length l)%nat then Some (l ++ [value])%list
  else None.

(** The [useState] cells of [GameSetup].  [editValue] is [None] when it
    holds [undefined] (the name of a row that does not exist). *)
Record Setup (num : Type) : Type := {
  names : list string;
  setupAnte : num;
  newName : string;
  draggedIndex : option nat;
  editingIndex : option nat;
  editValue : option string
}.

Section SetupScreen.
Context {num : Type} {N : Number num}.

(** [String.prototype.trim] of the JavaScript runtime. *)
Variable trim : string -> string.

Local Abbreviation Setup := (Setup num).

(** The state the setup screen starts with; the ante is the literal
    [0.20]. *)
Definition initialSetup : Setup :=
  {| names := ["Giocatore 1"; "Giocatore 2"];
     setupAnte := (fromZ 20 / fromZ 100)%num;
     newName := "";
     draggedIndex := None;
     editingIndex := None;
     editValue := Some "" |}.

(** The [onChange] of the ante field:
    [setAnte(parseFloat(e.target.value) || 0)]; [val] is what [parseFloat]
    reads ([None] for text that is no number). *)
Definition changeAnte (val : option num) (s : Setup) : Setup :=
  let parsed :=
    match val with
    | None => fromZ 0
    | Some x =>
        if isNaN x || ((x <=? fromZ 0)%num && (fromZ 0 <=? x)%num)
        then fromZ 0 else x
    end in
  {| names := names s; setupAnte := parsed; newName := newName s;
     draggedIndex := draggedIndex s; editingIndex := editingIndex s;
     editValue := editValue s |}.

Definition addPlayer (s : Setup) : Setup :=
  if negb (String.eqb (trim (newName s)) "")
  then {| names := (names s ++ [trim (newName s)])%list;
          setupAnte := setupAnte s; newName := "";
          draggedIndex := draggedIndex s; editingIndex := editingIndex s;
          editValue := editValue s |}
  else s.

Definition removePlayer (index : nat) (s : Setup) : Setup :=
  {| names := filterOutIndex index (names s);
     setupAnte := setupAnte s; newName := newName s;
     draggedIndex := draggedIndex s; editingIndex := editingIndex s;
     editValue := editValue s |}.

Definition startEditing (index : nat) (s : Setup) : Setup :=
  {| names := names s; setupAnte := setupAnte s; newName := newName s;
     draggedIndex := draggedIndex s; editingIndex := Some index;
     editValue := nth_error (names s) index |}.

Definition cancelEdit (s : Setup) : Setup :=
  {| names := names s; setupAnte := setupAnte s; newName := newName s;
     draggedIndex := draggedIndex s; editingIndex := None;
     editValue := Some "" |}.

(** [None] is the [TypeError] of [undefined.trim()], or a roster with
    holes. *)
Definition saveEdit (s : Setup) : option Setup :=
  match editingIndex s with
  | None => Some (cancelEdit s)
  | Some index =>
      match editValue s with
      | None => None
      | Some value =>
          if negb (String.eqb (trim value) "")
          then
            match assignAt index (trim value) (names s) with
            | Some updatedNames =>
                Some {| names := updatedNames;
                        setupAnte := setupAnte s; newName := newName s;
                        draggedIndex := draggedIndex s; editingIndex := None;
                        editValue := editValue s |}
            | None => None
            end
          else Some (cancelEdit s)
      end
  end.

(** [handleDragStart]: no drag starts while a name is being edited. *)
Definition handleDragStart (index : nat) (s : Setup) : Setup :=
  match editingIndex s with
  | Some _ => s
  | None =>
      {| names := names s; setupAnte := setupAnte s; newName := newName s;
         draggedIndex := Some index; editingIndex := editingIndex s;
         editValue := editValue s |}
  end.

Definition handleDragEnd (s : Setup) : Setup :=
  {| names := names s; setupAnte := setupAnte s; newName := newName s;
     draggedIndex := None; editingIndex := editingIndex s;
     editValue := editValue s |}.

(** [handleDrop]: [None] when nothing stands at [draggedIndex], where the
    code would insert [undefined] into the roster. *)
Definition handleDrop (targetIndex : nat) (s : Setup) : option Setup :=
  match draggedIndex s with
  | None => Some s
  | Some dragged =>
      if Nat.eqb dragged targetIndex then Some s
      else
        match spliceOut dragged (names s) with
        | (rest, Some movedItem) =>
            Some {| names := spliceIn targetIndex movedItem rest;
                    setupAnte := setupAnte s; newName := newName s;
                    draggedIndex := None; editingIndex := editingIndex s;
                    editValue := editValue s |}
        | (_, None) => None
        end
  end.

(** The events of the setup screen.  A row and its controls exist for
    every index below [names.length]; the row being edited shows the text
    field with its save and cancel buttons instead of the edit and remove
    buttons.  [Drag from to] is one drag gesture: [handleDragStart] on row
    [from], [handleDrop] on row [to], then [handleDragEnd]; while a name is
    being edited [handleDragStart] prevents the gesture. *)
Inductive SetupEvent : Type :=
| ChangeAnte (val : option num)
| TypeNewName (value : string)
| SubmitNewName
| ClickRemove (index : nat)
| ClickEdit (index : nat)
| TypeEditValue (value : string)
| ClickSave
| ClickCancel
| Drag (from to : nat).

(** Row [index] is rendered and is not the row being edited. *)
Definition plainRow (index : nat) (s : Setup) : bool :=
  (index <? List.length (names s))%nat
  && match editingIndex s with
     | Some k => negb (Nat.eqb k index)
     | None => true
     end.

(** The row being edited is rendered. *)
Definition editRowShown (s : Setup) : bool :=
  match editingIndex s with
  | Some k => (k <? List.length (names s))%nat
  | None => false
  end.

Definition setupDispatch (ev : SetupEvent) (s : Setup) : Setup :=
  match ev with
  | ChangeAnte val => changeAnte val s
  | TypeNewName value =>
      {| names := names s; setupAnte := setupAnte s; newName := value;
         draggedIndex := draggedIndex s; editingIndex := editingIndex s;
         editValue := editValue s |}
  | SubmitNewName => addPlayer s
  | ClickRemove index =>
      if plainRow index s then removePlayer index s else s
  | ClickEdit index =>
      if plainRow index s then startEditing index s else s
  | TypeEditValue value =>
      if editRowShown s
      then {| names := names s; setupAnte := setupAnte s;
              newName := newName s; draggedIndex := draggedIndex s;
              editingIndex := editingIndex s; editValue := Some value |}
      else s
  | ClickSave =>
      if editRowShown s
      then match saveEdit s with Some s' => s' | None => s end
      else s
  | ClickCancel =>
      if editRowShown s then cancelEdit s else s
  | Drag from to =>
      if match editingIndex s with Some _ => false | None => true end
         && (from <? List.length (names s))%nat
         && (to <? List.length (names s))%nat
      then match handleDrop to (handleDragStart from s) with
           | Some s' => handleDragEnd s'
           | None => s
           end
      else s
  end.

Definition setupSession (evs : list SetupEvent) (s : Setup) : Setup :=
  fold_left (fun s ev => setupDispatch ev s) evs s.

(** The click on "Inizia Partita"
    ([disabled={names.length < 2 || editingIndex !== null}]): what
    [onStartGame] is called with, if it is. *)
Definition clickStart (s : Setup) : option (list string * num) :=
  if (List.length (names s) <? 2)%nat
     || match editingIndex s with Some _ => true | None => false end
  then None
  else handleStart (names s) (setupAnte s).

End SetupScreen.

(** ** More vocabulary *)

Section LedgerRuns.
Context {num : Type} {N : Number num}.

(** The bank closed once for every entry of [es], one after the other. *)
Fixpoint closeBanks (es : list Env) (c : Component num)
    : option (Component num) :=
  match es with
  | [] => Some c
  | e :: rest =>
      match closeBank e c with
      | Some c' => closeBanks rest c'
      | None => None
      end
  end.

(** What the card shows between two rounds: an empty pot, the first orbit
    not yet begun, and an empty hand form. *)
Definition betweenRounds (c : Component num) : Prop :=
  GameState.pot (gameState c) = fromZ 0
  /\ GameState.gameRound (gameState c) = 1
  /\ GameState.playersPlayedThisRound (gameState c) = []
  /\ selectedChallengerId c = ""
  /\ betAmount c = None
  /\ errorMsg c = None.

End LedgerRuns.

(** ** Whole cents in binary64 *)

(** [k] cents as the browser holds them: the double nearest to k/100.  It
    is what [parseFloat] reads from a decimal with two places, and what
    [toCurrency] returns when its [Math.round] gives [k]. *)
Definition cents (k : Z) : float :=
  (fromZ (Number := Binary64.number) k / fromZ 100)%num.

(** [f] holds of the [n] integers from [lo] on. *)
Fixpoint forallZ (lo : Z) (n : nat) (f : Z -> bool) : bool :=
  match n with
  | O => true
  | S n' => f lo && forallZ (lo + 1) n' f
  end.

(** The largest pot, in cents, that the exhaustive checks below cover. *)
Definition centsBound : Z := 300.

(** What is checked of [k] cents: [toCurrency] leaves them alone, they are
    "approximately zero" only if [k] is 0, they are a valid amount if [k]
    is positive, and a positive amount is refused by the pot check on a pot
    of -0.01. *)
Definition centOk (k : Z) : bool :=
  let ck := cents k in
  PrimFloat.Leibniz.eqb (toCurrency ck) ck
  && Bool.eqb (isApproximatelyZero ck) (k =? 0)
  && Bool.eqb (validAmount ck) (1 <=? k)
  && (if 1 <=? k then (ck - cents (-1) >? lit_0_01)%num else true).

(** What is checked of a remainder of [q] cents, an amount of [a] cents and
    the pot of [q + a] cents they make up: taking the amount from the pot
    gives the remainder, paying it back gives the pot, an amount is
    refused by the pot check when it is two cents or more above the pot,
    and accepted when it is not above the pot. *)
Definition entryOk (q a : Z) : bool :=
  let cq := cents q in
  let ca := cents a in
  let cp := cents (q + a) in
  PrimFloat.Leibniz.eqb (toCurrency (cp - ca)%num) cq
  && PrimFloat.Leibniz.eqb (toCurrency (cq + ca)%num) cp
  && (if 2 <=? q then (cp - ca >? lit_0_01)%num else true)
  && (if 0 <=? q then negb (ca - cp >? lit_0_01)%num else true).

(** The checks on a remainder of [q] cents: those on [q] cents by
    themselves, and those with every amount from 0 that makes up a pot
    within the bound. *)
Definition rowOk (q : Z) : bool :=
  centOk q && forallZ 0 (Z.to_nat (centsBound - q + 1)) (entryOk q).

(** The most players at a table that the check of the antes covers. *)
Definition playersBound : Z := 20.

(** The antes of [n] players at [a] cents each round to [n * a] cents. *)
Definition anteOk (n a : Z) : bool :=
  if n * a <=? centsBound + 1
  then PrimFloat.Leibniz.eqb
         (toCurrency (fromZ (Number := Binary64.number) n * cents a)%num)
         (cents (n * a))
  else true.

(** The antes of [n] players, for every ante within the bound. *)
Definition anteRowOk (n : Z) : bool :=
  forallZ 0 (Z.to_nat (centsBound + 2)) (anteOk n).

(** A hand whose amount is [howMuch] cents. *)
Record CentHand : Type := {
  who : string;
  howMuch : Z;
  result : Winner;
  drawn : Env
}.

Definition handOf (h : CentHand) : Hand (num := float) :=
  {| challengerId := who h;
     amount := cents (howMuch h);
     outcome := result h;
     env := drawn h |}.

(** What a booked hand adds to the pot, in cents: the amount of a dealer
    win, minus the amount of a challenger win. *)
Definition centChange (h : CentHand) : Z :=
  match result h with
  | player => - howMuch h
  | dealer => howMuch h
  end.

Definition netCents (hs : list CentHand) : Z :=
  fold_right (fun h acc => centChange h + acc) 0 hs.

(** The amounts are positive and, booked one after the other on a pot of
    [p] cents, never take the pot above the bound. *)
Fixpoint withinBound (p : Z) (hs : list CentHand) : bool :=
  match hs with
  | [] => true
  | h :: rest =>
      (1 <=? howMuch h) && (howMuch h <=? centsBound)
      && (p + centChange h <=? centsBound)
      && withinBound (p + centChange h) rest
  end.

(** * Properties *)

Unset Implicit Arguments.

(** ** Arrays *)

Lemma index_of_nat {A : Type} (l : list A) (i : nat) :
  index l (Z.of_nat i) = nth_error l i.
Proof.
  unfold index. destruct (Z.ltb_spec (Z.of_nat i) 0); [lia|].
  now rewrite Nat2Z.id.
Qed.

(** With distinct ids, the player at position [i] is found at [i]. *)
Lemma findIndex_unique (l : list Player.t) (i : nat) (p : Player.t) :
  NoDup (map Player.id l) ->
  nth_error l i = Some p ->
  findIndex (id_is (Some (Player.id p))) l = Z.of_nat i.
Proof.
  revert i. induction l as [|x t IH]; intros i ND Hi.
  - destruct i; discriminate.
  - cbn [map] in ND. inversion ND as [|? ? Hnotin ND']; subst.
    cbn [findIndex id_is]. destruct i as [|i]; cbn [nth_error] in Hi.
    + inversion Hi; subst. now rewrite String.eqb_refl.
    + destruct (String.eqb (Player.id x) (Player.id p)) eqn:E.
      * apply String.eqb_eq in E. exfalso. apply Hnotin. rewrite E.
        apply in_map. eapply nth_error_In; eassumption.
      * specialize (IH i ND' Hi). cbn [id_is] in IH. rewrite IH.
        destruct (Z.ltb_spec (Z.of_nat i) 0); lia.
Qed.

Lemma find_id_In (l : list Player.t) (s : string) (p : Player.t) :
  find (fun q => String.eqb (Player.id q) s) l = Some p ->
  In p l /\ Player.id p = s.
Proof.
  intros H. apply find_some in H. destruct H as [H1 H2].
  split; [assumption|]. now apply String.eqb_eq.
Qed.

Lemma In_find_id (l : list Player.t) (s : string) :
  In s (map Player.id l) ->
  exists p, find (fun q => String.eqb (Player.id q) s) l = Some p.
Proof.
  intros H. apply in_map_iff in H. destruct H as [p [Hp Hin]].
  destruct (find (fun q => String.eqb (Player.id q) s) l) eqn:F.
  - eexists; reflexivity.
  - exfalso. eapply find_none in F; [|eassumption].
    cbn in F. rewrite Hp, String.eqb_refl in F. discriminate.
Qed.

Lemma includes_In (l : list string) (s : string) :
  includes l s = true <-> In s l.
Proof.
  unfold includes. rewrite existsb_exists. split.
  - intros [x [Hin E]]. apply String.eqb_eq in E. now subst.
  - intros H. exists s. split; [assumption|apply String.eqb_refl].
Qed.

Section LedgerFacts.
Context {num : Type} {N : Number num}.

Local Abbreviation GameState := (GameState.t num).
Local Abbreviation Component := (Component num).

(** ** Rejection of an amount above the pot *)

(** C3: a challenger-wins call whose (valid) amount exceeds the pot by more
    than 0.01 is refused with the insufficient-pot message, and the game
    state (pot, dealer, round flag, orbit counter, played set, log) and the
    form are exactly what they were. *)
Theorem insufficient_pot_rejected :
  forall (e : Env) (g : GameState) (challengerId : string) (amount : num),
    isNaN amount = false ->
    (amount <=? fromZ 0)%num = false ->
    (amount - GameState.pot g >? lit_0_01)%num = true ->
    exists c' : Component,
      recordHand e g challengerId amount player = Some c'
      /\ gameState c' = g
      /\ errorMsg c' = Some "Impossibile pagare più del piatto disponibile."
      /\ betAmount c' = Some amount
      /\ selectedChallengerId c' = challengerId.
Proof.
  intros e g challengerId amount Hnan Hpos Hexc.
  unfold recordHand, handleTransaction. cbn.
  rewrite Hnan, Hpos, Hexc. cbn.
  eexists. repeat split.
Qed.

(** ** Dealer rotation *)

Lemma rem_next_index (i n : nat) :
  (i < n)%nat ->
  Z.rem (Z.of_nat i + 1) (Z.of_nat n) = Z.of_nat ((i + 1) mod n).
Proof.
  intros H. rewrite Z.rem_mod_nonneg by lia.
  rewrite Nat2Z.inj_mod, Nat2Z.inj_add. reflexivity.
Qed.

Lemma next_player_exists (l : list Player.t) (i : nat) :
  (i < List.length l)%nat ->
  exists next, nth_error l ((i + 1) mod List.length l) = Some next.
Proof.
  intros H.
  destruct (nth_error l ((i + 1) mod List.length l)) eqn:E; [eauto|].
  apply nth_error_None in E.
  pose proof (Nat.mod_upper_bound (i + 1) (List.length l)). lia.
Qed.

(** After the roster is re-flagged for the dealer [next], standing at
    position [k], every player is who they were and the flag is set at
    position [k] only. *)
Lemma flagDealer_positions (l : list Player.t) (k : nat) (next : Player.t) :
  NoDup (map Player.id l) ->
  nth_error l k = Some next ->
  forall (j : nat) (p : Player.t),
    nth_error l j = Some p ->
    nth_error (map (flagDealer (Player.id next)) l) j
    = Some {| Player.id := Player.id p;
              Player.name := Player.name p;
              Player.isDealer := Nat.eqb j k;
              Player.roundsPlayed := Player.roundsPlayed p |}.
Proof.
  intros ND Hk j p Hj. rewrite nth_error_map, Hj. cbn. unfold flagDealer.
  do 2 f_equal.
  destruct (Nat.eqb_spec j k) as [->|Hne].
  - rewrite Hk in Hj. inversion Hj; subst. apply String.eqb_refl.
  - apply String.eqb_neq. intros Heq. apply Hne.
    assert (Hlt : (j < List.length (map Player.id l))%nat).
    { rewrite length_map. apply nth_error_Some. congruence. }
    apply (proj1 (NoDup_nth_error (map Player.id l)) ND j k Hlt).
    rewrite !nth_error_map, Hj, Hk. cbn. now rewrite Heq.
Qed.

Lemma map_identity_flagDealer (d : string) (l : list Player.t) :
  map identity (map (flagDealer d) l) = map identity l.
Proof. rewrite map_map. apply map_ext. reflexivity. Qed.

(** What [performDealerSwitch] does on a table whose dealer stands at
    position [i]. *)
Lemma performDealerSwitch_rotates :
  forall (e : Env) (reason : Reason) (finalPot : num)
         (challengerName : option string) (c : Component)
         (i : nat) (dlr : Player.t),
    NoDup (map Player.id (GameState.players (gameState c))) ->
    nth_error (GameState.players (gameState c)) i = Some dlr ->
    GameState.currentDealerId (gameState c) = Some (Player.id dlr) ->
    exists next : Player.t,
      nth_error (GameState.players (gameState c))
                ((i + 1) mod List.length (GameState.players (gameState c)))
      = Some next
      /\ performDealerSwitch e reason finalPot challengerName c
         = Some
             {| gameState :=
                  {| GameState.players :=
                       map (flagDealer (Player.id next))
                           (GameState.players (gameState c));
                     GameState.pot := fromZ 0;
                     GameState.ante := GameState.ante (gameState c);
                     GameState.currentDealerId := Some (Player.id next);
                     GameState.roundActive := false;
                     GameState.logs :=
                       (match reason with
                        | sbancato =>
                            [ {| GameLog.id := randomUUID e 0;
                                 GameLog.timestamp := Date_now e 0;
                                 GameLog.message :=
                                   GameLog.Sbancato challengerName
                                                    (Player.name next);
                                 GameLog.amount := Some (- finalPot)%num;
                                 GameLog.type := GameLog.Loss |};
                              {| GameLog.id := randomUUID e 1;
                                 GameLog.timestamp := Date_now e 1 - 1;
                                 GameLog.message :=
                                   GameLog.VinceLaMano challengerName;
                                 GameLog.amount := Some (- finalPot)%num;
                                 GameLog.type := GameLog.Loss |} ]
                        | collect =>
                            [ {| GameLog.id := randomUUID e 0;
                                 GameLog.timestamp := Date_now e 0;
                                 GameLog.message :=
                                   GameLog.FineTurno (Player.name dlr);
                                 GameLog.amount := Some finalPot;
                                 GameLog.type := GameLog.Collect |} ]
                        end ++ GameState.logs (gameState c))%list;
                     GameState.gameRound := 1;
                     GameState.playersPlayedThisRound := [] |};
                betAmount := None;
                selectedChallengerId := "";
                errorMsg := None |}.
Proof.
  intros e reason finalPot challengerName c i dlr ND Hi Hd.
  assert (Hlt : (i < List.length (GameState.players (gameState c)))%nat)
    by (apply nth_error_Some; congruence).
  destruct (next_player_exists _ _ Hlt) as [next Hnext].
  exists next. split; [assumption|].
  unfold performDealerSwitch.
  rewrite Hd, (findIndex_unique _ _ _ ND Hi), (rem_next_index _ _ Hlt).
  rewrite !index_of_nat, Hnext, Hi.
  destruct reason; reflexivity.
Qed.

(** C9: on a table whose dealer is a known player, [closeBank] puts a
    collect entry for the pot of that moment on the log and rotates: the
    next player in turn order (wrapping around) becomes the dealer and is
    the only one flagged as such, the pot is 0, no round is active, the
    orbit counter is 1 and nobody has played.  [roundActive] plays no part. *)
Theorem closeBank_collects_and_rotates :
  forall (e : Env) (c : Component) (i : nat) (dlr : Player.t),
    NoDup (map Player.id (GameState.players (gameState c))) ->
    nth_error (GameState.players (gameState c)) i = Some dlr ->
    GameState.currentDealerId (gameState c) = Some (Player.id dlr) ->
    exists (c' : Component) (next : Player.t) (entry : GameLog.t num),
      closeBank e c = Some c'
      /\ nth_error (GameState.players (gameState c))
                   ((i + 1) mod List.length (GameState.players (gameState c)))
         = Some next
      /\ GameState.logs (gameState c') = entry :: GameState.logs (gameState c)
      /\ GameLog.type entry = GameLog.Collect
      /\ GameLog.amount entry = Some (GameState.pot (gameState c))
      /\ GameState.currentDealerId (gameState c') = Some (Player.id next)
      /\ (forall (j : nat) (p : Player.t),
             nth_error (GameState.players (gameState c)) j = Some p ->
             nth_error (GameState.players (gameState c')) j
             = Some {| Player.id := Player.id p;
                       Player.name := Player.name p;
                       Player.isDealer :=
                         Nat.eqb j ((i + 1)
                                    mod List.length
                                          (GameState.players (gameState c)));
                       Player.roundsPlayed := Player.roundsPlayed p |})
      /\ List.length (GameState.players (gameState c'))
         = List.length (GameState.players (gameState c))
      /\ GameState.pot (gameState c') = fromZ 0
      /\ GameState.roundActive (gameState c') = false
      /\ GameState.gameRound (gameState c') = 1
      /\ GameState.playersPlayedThisRound (gameState c') = [].
Proof.
  intros e c i dlr ND Hi Hd.
  destruct (performDealerSwitch_rotates e collect
              (GameState.pot (gameState c)) None c i dlr ND Hi Hd)
    as [next [Hnext Hswitch]].
  eexists. exists next. eexists.
  split.
  - unfold closeBank, getCurrentDealer. rewrite Hd.
    destruct (find (id_is (Some (Player.id dlr)))
                   (GameState.players (gameState c))) eqn:F.
    + exact Hswitch.
    + exfalso. eapply find_none in F.
      * cbn in F. rewrite String.eqb_refl in F. discriminate.
      * eapply nth_error_In; eassumption.
  - cbn. repeat split; try reflexivity; try assumption.
    + intros j p Hj. now apply flagDealer_positions.
    + apply length_map.
Qed.

(** C2: a challenger-wins call of a known player whose valid amount passes
    the pot check and leaves a remainder within 0.01 of zero returns the
    rotated table: pot 0, no active round, the next player in turn order
    (wrapping around) as dealer, orbit counter 1, nobody marked as having
    played, and exactly two entries added to the log, both of kind loss and
    both carrying the negated amount: the bust entry on top of the
    hand-result entry. *)
Theorem bust_triggers_rotation :
  forall (e : Env) (g : GameState) (challengerId : string) (amount : num)
         (challenger : Player.t) (i : nat) (dlr : Player.t),
    NoDup (map Player.id (GameState.players g)) ->
    nth_error (GameState.players g) i = Some dlr ->
    GameState.currentDealerId g = Some (Player.id dlr) ->
    find (fun p => String.eqb (Player.id p) challengerId) (GameState.players g)
    = Some challenger ->
    isNaN amount = false ->
    (amount <=? fromZ 0)%num = false ->
    (amount - GameState.pot g >? lit_0_01)%num = false ->
    isApproximatelyZero (toCurrency (GameState.pot g - amount)%num) = true ->
    exists (c' : Component) (next : Player.t) (bust hand : GameLog.t num),
      recordHand e g challengerId amount player = Some c'
      /\ nth_error (GameState.players g)
                   ((i + 1) mod List.length (GameState.players g))
         = Some next
      /\ GameState.pot (gameState c') = fromZ 0
      /\ GameState.roundActive (gameState c') = false
      /\ GameState.currentDealerId (gameState c') = Some (Player.id next)
      /\ GameState.gameRound (gameState c') = 1
      /\ GameState.playersPlayedThisRound (gameState c') = []
      /\ GameState.logs (gameState c') = bust :: hand :: GameState.logs g
      /\ GameLog.type hand = GameLog.Loss
      /\ GameLog.message hand
         = GameLog.VinceLaMano (Some (Player.name challenger))
      /\ GameLog.amount hand = Some (- amount)%num
      /\ GameLog.type bust = GameLog.Loss
      /\ GameLog.message bust
         = GameLog.Sbancato (Some (Player.name challenger)) (Player.name next)
      /\ GameLog.amount bust = Some (- amount)%num.
Proof.
  intros e g challengerId amount challenger i dlr ND Hi Hd Hfind
         Hnan Hpos Hfit Hbust.
  pose (c := {| gameState := g; betAmount := Some amount;
                selectedChallengerId := challengerId; errorMsg := None |}).
  destruct (performDealerSwitch_rotates e sbancato amount
              (Some (Player.name challenger)) c i dlr ND Hi Hd)
    as [next [Hnext Hswitch]].
  eexists. exists next. do 2 eexists.
  split.
  - unfold recordHand, handleTransaction. cbn.
    rewrite Hnan, Hpos, Hfit, Hfind, Hbust. cbn. exact Hswitch.
  - cbn. repeat split; try reflexivity. assumption.
Qed.

(** ** Frame: roster and ante *)

Lemma updateRoundProgress_frame (e : Env) (state : GameState) (x : string) :
  GameState.players (updateRoundProgress e state x) = GameState.players state
  /\ GameState.ante (updateRoundProgress e state x) = GameState.ante state
  /\ GameState.pot (updateRoundProgress e state x) = GameState.pot state
  /\ GameState.currentDealerId (updateRoundProgress e state x)
     = GameState.currentDealerId state
  /\ GameState.roundActive (updateRoundProgress e state x)
     = GameState.roundActive state.
Proof.
  unfold updateRoundProgress.
  destruct (_ >=? _); cbn; repeat split; reflexivity.
Qed.

Lemma performDealerSwitch_frame :
  forall (e : Env) (reason : Reason) (finalPot : num)
         (challengerName : option string) (c c' : Component),
    performDealerSwitch e reason finalPot challengerName c = Some c' ->
    sameRoster (gameState c) (gameState c')
    /\ dealerRotated (gameState c) (gameState c').
Proof.
  intros e reason finalPot challengerName c c' H.
  unfold performDealerSwitch in H.
  destruct (index _ (Z.rem _ _)) as [next|] eqn:Hnext; [|discriminate].
  assert (Hin : In next (GameState.players (gameState c))).
  { unfold index in Hnext. destruct (_ <? 0); [discriminate|].
    eapply nth_error_In; eassumption. }
  clear Hnext. destruct reason.
  - destruct (index _ (findIndex _ _)) as [cur|]; [|discriminate].
    inversion H; subst; clear H. cbn. split.
    + split; [apply map_identity_flagDealer|reflexivity].
    + exists next. cbn. repeat split; try reflexivity. assumption.
  - inversion H; subst; clear H. cbn. split.
    + split; [apply map_identity_flagDealer|reflexivity].
    + exists next. cbn. repeat split; try reflexivity. assumption.
Qed.

(** C10: whatever operation is performed, the roster (length, order, ids,
    names, rounds-played counters) and the ante are those of before; the
    players are untouched altogether unless the dealer rotated, which
    [startRound] and a dealer-wins hand never do, and rotation rewrites
    nothing but the dealer flags. *)
Theorem roster_and_ante_preserved :
  forall (e : Env) (op : Operation) (c c' : Component),
    perform e op c = Some c' ->
    sameRoster (gameState c) (gameState c')
    /\ (GameState.players (gameState c') = GameState.players (gameState c)
        \/ dealerRotated (gameState c) (gameState c'))
    /\ match op with
       | StartRound | RecordHand _ _ dealer =>
           GameState.players (gameState c') = GameState.players (gameState c)
       | _ => True
       end.
Proof.
  intros e op c c' H. destruct op as [|challengerId amount outcome|]; cbn in H.
  - inversion H; subst; clear H. cbn.
    repeat split; try reflexivity. now left.
  - unfold recordHand, handleTransaction in H. cbn in H.
    destruct (isNaN amount || (amount <=? fromZ 0)%num).
    { inversion H; subst; clear H. cbn.
      repeat split; try reflexivity; [now left|destruct outcome; trivial]. }
    destruct (is_player outcome && _).
    { inversion H; subst; clear H. cbn.
      repeat split; try reflexivity; [now left|destruct outcome; trivial]. }
    destruct (find _ _) as [challenger|].
    2:{ inversion H; subst; clear H. cbn.
        repeat split; try reflexivity; [now left|destruct outcome; trivial]. }
    destruct outcome.
    + destruct (isApproximatelyZero _).
      * apply performDealerSwitch_frame in H. cbn in H.
        destruct H as [Hsame Hrot]. repeat split; try apply Hsame.
        now right.
      * inversion H; subst; clear H. cbn.
        match goal with
        | |- context [updateRoundProgress ?e ?st ?x] =>
            destruct (updateRoundProgress_frame e st x) as (Hp & Ha & _)
        end.
        cbn in Hp, Ha. unfold sameRoster. rewrite Hp, Ha.
        repeat split; try reflexivity. now left.
    + inversion H; subst; clear H. cbn.
      match goal with
      | |- context [updateRoundProgress ?e ?st ?x] =>
          destruct (updateRoundProgress_frame e st x) as (Hp & Ha & _)
      end.
      cbn in Hp, Ha. unfold sameRoster. rewrite Hp, Ha.
      repeat split; try reflexivity. now left.
  - unfold closeBank in H.
    destruct (getCurrentDealer (gameState c)).
    + apply performDealerSwitch_frame in H. destruct H as [Hsame Hrot].
      repeat split; try apply Hsame. now right.
    + inversion H; subst; clear H.
      repeat split; try reflexivity. now left.
Qed.

(** ** Orbits *)

Lemma challengers_In (g : GameState) (x : string) :
  In x (challengers g)
  <-> In x (map Player.id (GameState.players g))
      /\ GameState.currentDealerId g <> Some x.
Proof.
  unfold challengers. rewrite filter_In.
  destruct (GameState.currentDealerId g) as [d|].
  - destruct (String.eqb_spec x d) as [->|Hne]; cbn.
    + split; [intros [_ H]; discriminate|intros [_ H]; now elim H].
    + split; intros [H _]; (split; [assumption|]); congruence.
  - cbn. split; intros [H _]; (split; [assumption|]); congruence.
Qed.

Lemma length_filter_out (d : string) (l : list string) :
  NoDup l -> In d l ->
  S (List.length (filter (fun x => negb (String.eqb x d)) l)) = List.length l.
Proof.
  induction l as [|x t IH]; intros ND Hin; [destruct Hin|].
  inversion ND as [|? ? Hx ND']; subst. cbn [filter List.length].
  destruct (String.eqb_spec x d) as [->|Hne]; cbn [negb].
  - f_equal. clear IH ND ND'.
    induction t as [|y t IH]; [reflexivity|]. cbn [filter List.length].
    destruct (String.eqb_spec y d) as [->|_]; cbn [negb].
    + elim Hx. now left.
    + cbn [List.length]. f_equal. apply IH.
      * intros H. apply Hx. now right.
      * now left.
  - cbn [List.length]. f_equal. apply IH; [assumption|].
    destruct Hin as [->|H]; [now elim Hne|assumption].
Qed.

Lemma challengers_length (g : GameState) (d : string) :
  NoDup (map Player.id (GameState.players g)) ->
  GameState.currentDealerId g = Some d ->
  In d (map Player.id (GameState.players g)) ->
  S (List.length (challengers g)) = List.length (GameState.players g).
Proof.
  intros ND Hd Hin. unfold challengers. rewrite Hd.
  rewrite (length_filter_out d _ ND Hin). apply length_map.
Qed.

Lemma nonBustHand_checks (g : GameState) (h : Hand) :
  nonBustHand g h = true ->
  isNaN (amount h) || (amount h <=? fromZ 0)%num = false
  /\ match outcome h with
     | player =>
         (amount h - GameState.pot g >? lit_0_01)%num = false
         /\ isApproximatelyZero
              (toCurrency (GameState.pot g - amount h)%num) = false
     | dealer => True
     end.
Proof.
  unfold nonBustHand, validAmount, exceedsPot, busts. intros H.
  apply andb_prop in H. destruct H as [Hv Ho]. split.
  - now apply negb_true_iff.
  - destruct (outcome h); [|exact I].
    apply andb_prop in Ho. destruct Ho as [H1 H2].
    split; now apply negb_true_iff.
Qed.

Lemma updateRoundProgress_cases (e : Env) (state : GameState) (x : string) :
  (Z.of_nat (List.length (updatedPlayed state x))
   < Z.of_nat (List.length (GameState.players state)) - 1
   /\ GameState.playersPlayedThisRound (updateRoundProgress e state x)
      = updatedPlayed state x
   /\ GameState.gameRound (updateRoundProgress e state x)
      = GameState.gameRound state
   /\ GameState.logs (updateRoundProgress e state x) = GameState.logs state)
  \/ (Z.of_nat (List.length (updatedPlayed state x))
      >= Z.of_nat (List.length (GameState.players state)) - 1
      /\ GameState.playersPlayedThisRound (updateRoundProgress e state x) = []
      /\ GameState.gameRound (updateRoundProgress e state x)
         = GameState.gameRound state + 1
      /\ GameState.logs (updateRoundProgress e state x)
         = {| GameLog.id := randomUUID e 1;
              GameLog.timestamp := Date_now e 1;
              GameLog.message :=
                GameLog.IniziaIlGiro (GameState.gameRound state + 1);
              GameLog.amount := None;
              GameLog.type := GameLog.Info |} :: GameState.logs state).
Proof.
  unfold updateRoundProgress.
  change (if negb (includes (GameState.playersPlayedThisRound state) x)
          then (GameState.playersPlayedThisRound state ++ [x])%list
          else GameState.playersPlayedThisRound state)
    with (updatedPlayed state x).
  destruct (Z.geb_spec (Z.of_nat (List.length (updatedPlayed state x)))
                       (Z.of_nat (List.length (GameState.players state)) - 1)).
  - right. cbn. repeat split. lia.
  - left. cbn. repeat split. lia.
Qed.

(** A non-bust hand of a known player books the hand and then runs the
    orbit bookkeeping for that player. *)
Lemma playHand_nonBust (g : GameState) (h : Hand) :
  nonBustHand g h = true ->
  In (challengerId h) (map Player.id (GameState.players g)) ->
  exists (state : GameState) (entry : GameLog.t num),
    playHand h g = Some (updateRoundProgress (env h) state (challengerId h))
    /\ GameState.players state = GameState.players g
    /\ GameState.currentDealerId state = GameState.currentDealerId g
    /\ GameState.roundActive state = GameState.roundActive g
    /\ GameState.gameRound state = GameState.gameRound g
    /\ GameState.playersPlayedThisRound state
       = GameState.playersPlayedThisRound g
    /\ GameState.logs state = entry :: GameState.logs g
    /\ GameState.pot state
       = match outcome h with
         | player => toCurrency (GameState.pot g - amount h)%num
         | dealer => toCurrency (GameState.pot g + amount h)%num
         end.
Proof.
  intros Hnb Hin.
  destruct (nonBustHand_checks g h Hnb) as [Hv Ho].
  destruct (In_find_id _ _ Hin) as [ch Hch].
  destruct (find_id_In _ _ _ Hch) as [_ Hid].
  unfold playHand, recordHand, handleTransaction.
  cbn [gameState betAmount selectedChallengerId].
  rewrite Hv, Hch, Hid.
  destruct (outcome h); cbn [is_player andb].
  - destruct Ho as [Hfit Hbust]. rewrite Hfit, Hbust.
    unfold afterHand. cbn [gameState].
    do 2 eexists. split; [reflexivity|]. cbn. repeat split.
  - unfold afterHand. cbn [gameState].
    do 2 eexists. split; [reflexivity|]. cbn. repeat split.
Qed.

(** One non-bust hand of a known player: the table and the dealer stay, and
    the orbit bookkeeping is that of [updateRoundProgress]. *)
Lemma playHand_step (g : GameState) (h : Hand) :
  nonBustHand g h = true ->
  In (challengerId h) (map Player.id (GameState.players g)) ->
  exists g' : GameState,
    playHand h g = Some g'
    /\ GameState.players g' = GameState.players g
    /\ GameState.currentDealerId g' = GameState.currentDealerId g
    /\ ((Z.of_nat (List.length (updatedPlayed g (challengerId h)))
          < Z.of_nat (List.length (GameState.players g)) - 1
         /\ GameState.playersPlayedThisRound g'
            = updatedPlayed g (challengerId h)
         /\ GameState.gameRound g' = GameState.gameRound g)
        \/ (Z.of_nat (List.length (updatedPlayed g (challengerId h)))
            >= Z.of_nat (List.length (GameState.players g)) - 1
            /\ GameState.playersPlayedThisRound g' = []
            /\ GameState.gameRound g' = GameState.gameRound g + 1
            /\ exists (entry : GameLog.t num) (rest : list (GameLog.t num)),
                 GameState.logs g' = entry :: rest
                 /\ GameLog.type entry = GameLog.Info
                 /\ GameLog.message entry
                    = GameLog.IniziaIlGiro (GameState.gameRound g + 1)
                 /\ GameLog.amount entry = None)).
Proof.
  intros Hnb Hin.
  destruct (playHand_nonBust g h Hnb Hin)
    as (state & entry & Hplay & Hp & Hd & _ & Hr & Hpl & _).
  destruct (updateRoundProgress_frame (env h) state (challengerId h))
    as (Hp' & _ & _ & Hd' & _).
  assert (Hup : updatedPlayed state (challengerId h)
                = updatedPlayed g (challengerId h))
    by (unfold updatedPlayed; now rewrite Hpl).
  exists (updateRoundProgress (env h) state (challengerId h)).
  split; [exact Hplay|]. split; [congruence|]. split; [congruence|].
  destruct (updateRoundProgress_cases (env h) state (challengerId h))
    as [(Hlt & Hpl' & Hr' & _)|(Hge & Hpl' & Hr' & Hlog)];
    rewrite Hup, Hp in *.
  - left. repeat split; [assumption|assumption|congruence].
  - right. repeat split; [assumption|assumption|congruence|].
    do 2 eexists. split; [exact Hlog|]. cbn. rewrite Hr. repeat split.
Qed.

Lemma updatedPlayed_new (g : GameState) (x : string) :
  ~ In x (GameState.playersPlayedThisRound g) ->
  updatedPlayed g x = (GameState.playersPlayedThisRound g ++ [x])%list.
Proof.
  intros H. unfold updatedPlayed.
  destruct (includes (GameState.playersPlayedThisRound g) x) eqn:E;
    [|reflexivity].
  apply includes_In in E. contradiction.
Qed.

Lemma updatedPlayed_again (g : GameState) (x : string) :
  In x (GameState.playersPlayedThisRound g) ->
  updatedPlayed g x = GameState.playersPlayedThisRound g.
Proof.
  intros H. unfold updatedPlayed.
  apply includes_In in H. now rewrite H.
Qed.

Lemma playHands_app (a b : list Hand) (g : GameState) :
  playHands (a ++ b) g
  = match playHands a g with
    | Some g1 => playHands b g1
    | None => None
    end.
Proof.
  revert g. induction a as [|h a IH]; intros g; cbn; [reflexivity|].
  destruct (playHand h g); [apply IH|reflexivity].
Qed.

Lemma allNonBust_app (a b : list Hand) (g : GameState) :
  allNonBust (a ++ b) g = true ->
  allNonBust a g = true
  /\ forall g1, playHands a g = Some g1 -> allNonBust b g1 = true.
Proof.
  revert g. induction a as [|h a IH]; intros g H; cbn in *.
  - split; [reflexivity|]. intros g1 E. now inversion E; subst.
  - apply andb_prop in H. destruct H as [H1 H2]. rewrite H1. cbn.
    destruct (playHand h g) as [g'|]; [|discriminate].
    now apply IH.
Qed.

(** Hands of distinct challengers who have not played yet, fewer than it
    takes to complete the orbit: each is added to the played list and the
    orbit counter stays. *)
Lemma orbit_in_progress :
  forall (hs : list Hand) (g : GameState),
    (forall h, In h hs ->
               In (challengerId h) (map Player.id (GameState.players g))) ->
    NoDup (GameState.playersPlayedThisRound g ++ map challengerId hs) ->
    Z.of_nat (List.length (GameState.playersPlayedThisRound g)
              + List.length hs)
    < Z.of_nat (List.length (GameState.players g)) - 1 ->
    allNonBust hs g = true ->
    exists g' : GameState,
      playHands hs g = Some g'
      /\ GameState.players g' = GameState.players g
      /\ GameState.currentDealerId g' = GameState.currentDealerId g
      /\ GameState.playersPlayedThisRound g'
         = (GameState.playersPlayedThisRound g ++ map challengerId hs)%list
      /\ GameState.gameRound g' = GameState.gameRound g.
Proof.
  induction hs as [|h t IH]; intros g Hknown ND Hlen Hnb.
  - exists g. cbn. rewrite app_nil_r. repeat split.
  - cbn [allNonBust] in Hnb. apply andb_prop in Hnb.
    destruct Hnb as [Hh Ht].
    assert (Hfresh : ~ In (challengerId h) (GameState.playersPlayedThisRound g)).
    { cbn [map] in ND. apply NoDup_remove_2 in ND.
      intros H. apply ND. apply in_or_app. now left. }
    destruct (playHand_step g h Hh (Hknown h (or_introl eq_refl)))
      as (g1 & Hplay & Hp & Hd & Hcase).
    rewrite (updatedPlayed_new g _ Hfresh) in Hcase.
    rewrite length_app in Hcase. cbn [List.length] in Hcase, Hlen.
    destruct Hcase as [(_ & Hplayed & Hround)|(Hge & _)]; [|lia].
    rewrite Hplay in Ht.
    destruct (IH g1) as (g' & Hrun & Hp' & Hd' & Hplayed' & Hround').
    + intros h' Hin'. rewrite Hp. apply Hknown. now right.
    + rewrite Hplayed, <- app_assoc. exact ND.
    + rewrite Hplayed, Hp, length_app. cbn [List.length]. lia.
    + exact Ht.
    + exists g'. cbn [playHands]. rewrite Hplay.
      repeat split; try congruence.
      rewrite Hplayed', Hplayed, <- app_assoc. reflexivity.
Qed.

(** C4: on a table of N >= 2 players with distinct ids whose played list is
    empty, once each of the N-1 challengers has had exactly one non-bust
    hand, in any order, the orbit counter is one more than before, the
    played list is empty again and the newest log entry is the info entry
    announcing that orbit number; and before the orbit is complete, a
    further non-bust hand of a challenger who has already played leaves the
    played list and the orbit counter as they are. *)
Theorem orbit_completion :
  forall (g : GameState) (d : string) (hs : list Hand),
    NoDup (map Player.id (GameState.players g)) ->
    (2 <= List.length (GameState.players g))%nat ->
    GameState.currentDealerId g = Some d ->
    In d (map Player.id (GameState.players g)) ->
    GameState.playersPlayedThisRound g = [] ->
    Permutation (map challengerId hs) (challengers g) ->
    allNonBust hs g = true ->
    (exists (g' : GameState) (entry : GameLog.t num)
            (rest : list (GameLog.t num)),
        playHands hs g = Some g'
        /\ GameState.gameRound g' = GameState.gameRound g + 1
        /\ GameState.playersPlayedThisRound g' = []
        /\ GameState.logs g' = entry :: rest
        /\ GameLog.type entry = GameLog.Info
        /\ GameLog.message entry
           = GameLog.IniziaIlGiro (GameState.gameRound g + 1)
        /\ GameState.currentDealerId g' = Some d)
    /\ (forall (before after : list Hand) (again : Hand) (g1 : GameState),
           hs = (before ++ after)%list ->
           after <> [] ->
           playHands before g = Some g1 ->
           In (challengerId again) (map challengerId before) ->
           nonBustHand g1 again = true ->
           exists g2 : GameState,
             playHand again g1 = Some g2
             /\ GameState.playersPlayedThisRound g2
                = GameState.playersPlayedThisRound g1
             /\ GameState.playersPlayedThisRound g1 = map challengerId before
             /\ GameState.gameRound g2 = GameState.gameRound g).
Proof.
  intros g d hs ND HN Hd Hdin Hempty Hperm Hnb.
  pose proof (challengers_length g d ND Hd Hdin) as Hclen.
  assert (Hhlen : S (List.length hs) = List.length (GameState.players g)).
  { rewrite <- Hclen, <- (Permutation_length Hperm), length_map.
    reflexivity. }
  assert (Hknown : forall h, In h hs ->
            In (challengerId h) (map Player.id (GameState.players g))).
  { intros h Hin. apply (challengers_In g).
    eapply Permutation_in; [exact Hperm|]. now apply in_map. }
  assert (HND : NoDup (map challengerId hs)).
  { eapply Permutation_NoDup; [apply Permutation_sym; exact Hperm|].
    unfold challengers. apply NoDup_filter. exact ND. }
  split.
  - destruct (exists_last (l := hs)) as (before & h & ->).
    { intros ->. cbn in Hhlen. lia. }
    rewrite length_app in Hhlen. cbn [List.length] in Hhlen.
    rewrite map_app in HND. cbn [map] in HND.
    destruct (allNonBust_app _ _ _ Hnb) as [Hnb1 Hnb2].
    destruct (orbit_in_progress before g) as (g1 & Hrun & Hp & Hd1 & Hpl & Hr).
    + intros h' Hin'. apply Hknown. apply in_or_app. now left.
    + rewrite Hempty. cbn. eapply NoDup_app_remove_r. exact HND.
    + rewrite Hempty. cbn [List.length]. lia.
    + exact Hnb1.
    + specialize (Hnb2 g1 Hrun). cbn [allNonBust] in Hnb2.
      apply andb_prop in Hnb2. destruct Hnb2 as [Hh _].
      destruct (playHand_step g1 h Hh) as (g2 & Hplay & Hp2 & Hd2 & Hcase).
      { rewrite Hp. apply Hknown. apply in_or_app. right. now left. }
      rewrite updatedPlayed_new in Hcase.
      2:{ rewrite Hpl, Hempty. cbn.
          apply NoDup_remove_2 in HND. now rewrite app_nil_r in HND. }
      rewrite Hpl, Hempty, Hp in Hcase. cbn [app] in Hcase.
      rewrite length_app, length_map in Hcase. cbn [List.length] in Hcase.
      destruct Hcase as [(Hlt & _)|(_ & Hpl2 & Hr2 & entry & rest & Hlog)];
        [lia|].
      exists g2, entry, rest. rewrite playHands_app, Hrun. cbn [playHands].
      rewrite Hplay. rewrite Hr in Hr2, Hlog.
      destruct Hlog as (Hl1 & Hl2 & Hl3 & _).
      repeat split; try assumption. congruence.
  - intros before after again g1 -> Hafter Hrun Hagain Hnbh.
    rewrite length_app in Hhlen. rewrite map_app in HND.
    destruct (allNonBust_app _ _ _ Hnb) as [Hnb1 _].
    destruct (orbit_in_progress before g) as (g1' & Hrun' & Hp & Hd1 & Hpl & Hr).
    + intros h' Hin'. apply Hknown. apply in_or_app. now left.
    + rewrite Hempty. cbn. eapply NoDup_app_remove_r. exact HND.
    + rewrite Hempty. cbn [List.length].
      destruct after as [|a after]; [now elim Hafter|].
      cbn [List.length] in Hhlen. lia.
    + exact Hnb1.
    + rewrite Hrun in Hrun'. inversion Hrun'; subst g1'. clear Hrun'.
      rewrite Hempty in Hpl. cbn [app] in Hpl.
      destruct (playHand_step g1 again Hnbh) as (g2 & Hplay & Hp2 & Hd2 & Hcase).
      { rewrite Hp. apply in_map_iff in Hagain.
        destruct Hagain as (h' & Heq & Hin'). rewrite <- Heq.
        apply Hknown. apply in_or_app. now left. }
      rewrite updatedPlayed_again in Hcase by (now rewrite Hpl).
      rewrite Hpl, Hp, length_map in Hcase.
      destruct after as [|a after]; [now elim Hafter|].
      cbn [List.length] in Hhlen.
      destruct Hcase as [(_ & Hpl2 & Hr2)|(Hge & _)]; [|lia].
      exists g2. repeat split; try assumption; congruence.
Qed.

(** ** The invariant of the running table *)

Lemma index_In {A : Type} (l : list A) (i : Z) (x : A) :
  index l i = Some x -> In x l.
Proof.
  unfold index. destruct (i <? 0); [discriminate|]. apply nth_error_In.
Qed.

(** The suggestion of [getNextChallengerId] is empty or a player other than
    the dealer. *)
Lemma scanFrom_spec (g : GameState) (startIndex : Z) (steps : list nat) :
  scanFrom g startIndex steps = ""
  \/ (In (scanFrom g startIndex steps) (map Player.id (GameState.players g))
      /\ GameState.currentDealerId g <> Some (scanFrom g startIndex steps)).
Proof.
  induction steps as [|i rest IH]; cbn [scanFrom]; [now left|].
  destruct (index _ _) as [candidate|] eqn:Hc; [|now left].
  destruct (id_is (GameState.currentDealerId g) candidate) eqn:Hd;
    cbn [negb]; [exact IH|].
  right. split.
  - apply in_map. eapply index_In; eassumption.
  - intros E. rewrite E in Hd. cbn in Hd.
    rewrite String.eqb_refl in Hd. discriminate.
Qed.

Lemma getNextChallengerId_spec (g : GameState) (ref : option string) :
  getNextChallengerId g ref = ""
  \/ (In (getNextChallengerId g ref) (map Player.id (GameState.players g))
      /\ GameState.currentDealerId g <> Some (getNextChallengerId g ref)).
Proof.
  unfold getNextChallengerId.
  destruct (_ || _); [now left|].
  destruct (_ =? -1); [now left|].
  apply scanFrom_spec.
Qed.

Lemma initFirstDealer_settled (g : GameState) (d : string) :
  GameState.currentDealerId g = Some d -> d <> "" -> initFirstDealer g = g.
Proof.
  intros Hd Hne. unfold initFirstDealer. rewrite Hd. cbn.
  apply String.eqb_neq in Hne. now rewrite Hne.
Qed.

Lemma afterRender_settled (c : Component) :
  tableInvariant c -> afterRender c = c.
Proof.
  intros (Hempty & (d & Hd & Hin & _) & _).
  unfold afterRender. rewrite (initFirstDealer_settled _ d Hd).
  - now destruct c.
  - intros ->. contradiction.
Qed.

Lemma tableInvariant_form (c : Component) (bet : option num)
      (err : option string) :
  tableInvariant c ->
  tableInvariant {| gameState := gameState c; betAmount := bet;
                    selectedChallengerId := selectedChallengerId c;
                    errorMsg := err |}.
Proof. intros H. exact H. Qed.

Lemma tableInvariant_select (c : Component) (value : string) :
  tableInvariant c ->
  includes (challengerOptions (gameState c)) value = true ->
  tableInvariant {| gameState := gameState c; betAmount := betAmount c;
                    selectedChallengerId := value; errorMsg := errorMsg c |}.
Proof.
  intros (Hempty & (d & Hd & Hin & Hflag & _) & Hplayed) Hopt.
  split; [exact Hempty|]. split; [|exact Hplayed].
  exists d. repeat split; try assumption. cbn.
  apply includes_In in Hopt. destruct Hopt as [<-|Hopt]; [now left|].
  right. apply in_map_iff in Hopt. destruct Hopt as (p & <- & Hp).
  apply filter_In in Hp. destruct Hp as [Hp Hnd].
  split; [now apply in_map|].
  rewrite (Hflag p Hp) in Hnd. apply negb_true_iff in Hnd.
  now apply String.eqb_neq.
Qed.

Lemma tableInvariant_startRound (e : Env) (c : Component) :
  tableInvariant c -> tableInvariant (startRound e c).
Proof.
  intros (Hempty & (d & Hd & Hin & Hflag & _) & Hplayed).
  split; [exact Hempty|]. split; [|exact Hplayed].
  exists d. cbn. repeat split; try assumption.
  destruct (getNextChallengerId_spec (gameState c) None) as [->|[H1 H2]];
    [now left|].
  right. split; [assumption|]. intros E. apply H2. now rewrite E.
Qed.

Lemma tableInvariant_rotated (c c' : Component) :
  tableInvariant c ->
  dealerRotated (gameState c) (gameState c') ->
  selectedChallengerId c' = "" ->
  tableInvariant c'.
Proof.
  intros (Hempty & (d & Hd & Hin & _) & _)
         (next & Hnext & Hd' & Hp' & _ & _ & _ & Hpl') Hsel.
  assert (Hids : map Player.id (GameState.players (gameState c'))
                 = map Player.id (GameState.players (gameState c))).
  { rewrite Hp', map_map. apply map_ext. reflexivity. }
  unfold tableInvariant. cbn zeta. rewrite Hids.
  split; [exact Hempty|]. split.
  - exists (Player.id next). repeat split.
    + exact Hd'.
    + now apply in_map.
    + intros p Hp. rewrite Hp' in Hp. apply in_map_iff in Hp.
      destruct Hp as (q & <- & _). reflexivity.
    + now left.
  - unfold playedOnlyChallengers. rewrite Hpl'. split.
    + intros x [].
    + cbn. destruct (GameState.players (gameState c')) eqn:E.
      * rewrite Hp' in E. destruct (GameState.players (gameState c));
          [destruct Hnext|discriminate].
      * cbn [List.length]. lia.
Qed.

Lemma performDealerSwitch_form :
  forall (e : Env) (reason : Reason) (finalPot : num)
         (challengerName : option string) (c c' : Component),
    performDealerSwitch e reason finalPot challengerName c = Some c' ->
    selectedChallengerId c' = "" /\ betAmount c' = None /\ errorMsg c' = None.
Proof.
  intros e reason finalPot challengerName c c' H.
  unfold performDealerSwitch in H.
  destruct (index _ (Z.rem _ _)); [|discriminate].
  destruct reason.
  - destruct (index _ (findIndex _ _)); [|discriminate].
    inversion H; subst. repeat split.
  - inversion H; subst. repeat split.
Qed.

Lemma tableInvariant_played (c : Component) (e : Env) (state : GameState)
      (x : string) :
  tableInvariant c ->
  GameState.players state = GameState.players (gameState c) ->
  GameState.currentDealerId state = GameState.currentDealerId (gameState c) ->
  GameState.playersPlayedThisRound state
  = GameState.playersPlayedThisRound (gameState c) ->
  In x (map Player.id (GameState.players (gameState c))) ->
  GameState.currentDealerId (gameState c) <> Some x ->
  playedOnlyChallengers (updateRoundProgress e state x).
Proof.
  intros (_ & (d & Hd & Hin & _) & (Hsub & Hlen)) Hp Hdl Hpl Hx Hxd.
  destruct (updateRoundProgress_frame e state x) as (Hp' & _ & _ & Hd' & _).
  unfold playedOnlyChallengers. rewrite Hp', Hd', Hp, Hdl.
  assert (Hpos : 0 <= Z.of_nat (List.length
                                  (GameState.players (gameState c))) - 1).
  { destruct (GameState.players (gameState c)); [destruct Hin|].
    cbn [List.length]. lia. }
  destruct (updateRoundProgress_cases e state x)
    as [(Hlt & -> & _)|(_ & -> & _)].
  - rewrite Hp in Hlt. split; [|lia].
    intros y Hy. unfold updatedPlayed in Hy. rewrite Hpl in Hy.
    destruct (negb _).
    + apply in_app_or in Hy. destruct Hy as [Hy|[<-|[]]];
        [now apply Hsub|now split].
    + now apply Hsub.
  - split; [intros y []|cbn; lia].
Qed.

Lemma tableInvariant_handleTransaction (e : Env) (w : Winner)
      (c c' : Component) :
  tableInvariant c ->
  handleTransaction e w c = Some c' ->
  tableInvariant c'.
Proof.
  intros Hinv H. unfold handleTransaction in H.
  destruct (betAmount c) as [amount|]; [|now inversion H; subst].
  destruct (isNaN amount || _); [now inversion H; subst|].
  destruct (is_player w && _).
  { inversion H; subst. now apply tableInvariant_form. }
  destruct (find _ _) as [challenger|] eqn:Hfind; [|now inversion H; subst].
  destruct (find_id_In _ _ _ Hfind) as [Hcin Hcid].
  assert (Hsel : In (selectedChallengerId c)
                    (map Player.id (GameState.players (gameState c)))
                 /\ GameState.currentDealerId (gameState c)
                    <> Some (selectedChallengerId c)).
  { destruct Hinv as (Hempty & (d & Hd & _ & _ & Hs) & _).
    assert (Hin : In (selectedChallengerId c)
                     (map Player.id (GameState.players (gameState c))))
      by (rewrite <- Hcid; now apply in_map).
    split; [exact Hin|].
    destruct Hs as [Hs|[_ Hs]].
    - rewrite Hs in Hin. contradiction.
    - rewrite Hd. intros E. inversion E. now apply Hs. }
  assert (Hnext :
            forall g', GameState.players g' = GameState.players (gameState c) ->
                       GameState.currentDealerId g'
                       = GameState.currentDealerId (gameState c) ->
                       playedOnlyChallengers g' ->
                       tableInvariant
                         (afterHand (gameState c) (selectedChallengerId c) g')).
  { intros g' Hp Hd' Hpl'.
    destruct Hinv as (Hempty & (d & Hd & Hin & Hflag & _) & _).
    unfold tableInvariant, afterHand. cbn [gameState selectedChallengerId].
    rewrite Hp, Hd'. split; [exact Hempty|]. split; [|exact Hpl'].
    exists d. repeat split; try assumption.
    destruct (getNextChallengerId_spec (gameState c)
                (Some (selectedChallengerId c))) as [->|[H1 H2]];
      [now left|].
    right. split; [assumption|]. intros E. apply H2. now rewrite E, Hd. }
  destruct w.
  - destruct (isApproximatelyZero _).
    + destruct (performDealerSwitch_frame _ _ _ _ _ _ H) as [_ Hrot].
      destruct (performDealerSwitch_form _ _ _ _ _ _ H) as [Hs _].
      eapply tableInvariant_rotated; eassumption.
    + inversion H; subst; clear H.
      match goal with
      | |- context [updateRoundProgress ?e ?st ?x] =>
          destruct (updateRoundProgress_frame e st x) as (Hp & _ & _ & Hd & _);
          pose proof (tableInvariant_played c e st x Hinv eq_refl eq_refl
                        eq_refl) as Hpl
      end.
      rewrite Hcid in *. apply Hnext; try assumption.
      apply Hpl; apply Hsel.
  - inversion H; subst; clear H.
    match goal with
    | |- context [updateRoundProgress ?e ?st ?x] =>
        destruct (updateRoundProgress_frame e st x) as (Hp & _ & _ & Hd & _);
        pose proof (tableInvariant_played c e st x Hinv eq_refl eq_refl
                      eq_refl) as Hpl
    end.
    rewrite Hcid in *. apply Hnext; try assumption.
    apply Hpl; apply Hsel.
Qed.

Lemma tableInvariant_closeBank (e : Env) (c c' : Component) :
  tableInvariant c -> closeBank e c = Some c' -> tableInvariant c'.
Proof.
  intros Hinv H. unfold closeBank in H.
  destruct (getCurrentDealer (gameState c)); [|now inversion H; subst].
  destruct (performDealerSwitch_frame _ _ _ _ _ _ H) as [_ Hrot].
  destruct (performDealerSwitch_form _ _ _ _ _ _ H) as [Hs _].
  eapply tableInvariant_rotated; eassumption.
Qed.

Lemma tableInvariant_dispatch (ev : Event) (c : Component) :
  tableInvariant c -> tableInvariant (dispatch ev c).
Proof.
  intros Hinv. destruct ev as [e|value|val|w e|e]; cbn [dispatch].
  - destruct (negb _); [|assumption].
    rewrite afterRender_settled; now apply tableInvariant_startRound.
  - destruct (_ && _) eqn:E; [|assumption].
    apply andb_prop in E. now apply tableInvariant_select.
  - destruct (GameState.roundActive _); [|assumption].
    unfold handleBetChange. now apply tableInvariant_form.
  - destruct (_ && _); [|assumption].
    destruct (handleTransaction e w c) as [c'|] eqn:H; [|assumption].
    assert (tableInvariant c')
      by (eapply tableInvariant_handleTransaction; eassumption).
    now rewrite afterRender_settled.
  - destruct (_ && _); [|assumption].
    destruct (closeBank e c) as [c'|] eqn:H; [|assumption].
    assert (tableInvariant c')
      by (eapply tableInvariant_closeBank; eassumption).
    now rewrite afterRender_settled.
Qed.

Lemma tableInvariant_session (evs : list Event) (c : Component) :
  tableInvariant c -> tableInvariant (session evs c).
Proof.
  revert c. unfold session.
  induction evs as [|ev evs IH]; intros c Hinv; cbn [fold_left];
    [assumption|].
  apply IH. now apply tableInvariant_dispatch.
Qed.

(** ** Setting up the table *)

Lemma mapi_from_In {A B : Type} (f : A -> nat -> B) (l : list A) (k : nat)
      (y : B) :
  In y (mapi_from k f l) ->
  exists (x : A) (i : nat), (k <= i < k + List.length l)%nat /\ y = f x i.
Proof.
  revert k. induction l as [|x t IH]; intros k H; [destruct H|].
  cbn [mapi_from] in H. destruct H as [<-|H].
  - exists x, k. cbn [List.length]. split; [lia|reflexivity].
  - destruct (IH _ H) as (x' & i & Hi & ->). exists x', i.
    cbn [List.length]. split; [lia|reflexivity].
Qed.

Lemma map_mapi_from {A B C : Type} (g : B -> C) (f : A -> nat -> B)
      (l : list A) (k : nat) :
  map g (mapi_from k f l) = mapi_from k (fun x i => g (f x i)) l.
Proof.
  revert k. induction l as [|x t IH]; intros k; cbn; [reflexivity|].
  now rewrite IH.
Qed.

Lemma mapi_from_index {A B : Type} (h : nat -> B) (l : list A) (k : nat) :
  mapi_from k (fun _ i => h i) l = map h (seq k (List.length l)).
Proof.
  revert k. induction l as [|x t IH]; intros k; cbn; [reflexivity|].
  now rewrite IH.
Qed.

Lemma initial_ids (e : Env) (names : list string) (anteAmount : num) :
  map Player.id (GameState.players (initialGameState e names anteAmount))
  = map (randomUUID e) (seq 0 (List.length names)).
Proof.
  cbn [initialGameState GameState.players]. rewrite map_mapi_from.
  cbn [Player.id]. apply mapi_from_index.
Qed.

Lemma mount_gameState (e : Env) (names : list string) (anteAmount : num) :
  gameState (mount e names anteAmount)
  = {| GameState.players :=
         GameState.players (initialGameState e names anteAmount);
       GameState.pot := fromZ 0;
       GameState.ante := anteAmount;
       GameState.currentDealerId :=
         match GameState.players (initialGameState e names anteAmount) with
         | p0 :: _ => Some (Player.id p0)
         | [] => None
         end;
       GameState.roundActive := false;
       GameState.logs := [];
       GameState.gameRound := 1;
       GameState.playersPlayedThisRound := [] |}.
Proof. destruct names; reflexivity. Qed.

(** A table mounted with a non-empty roster and distinct non-empty ids
    satisfies the invariant. *)
Lemma mount_invariant (e : Env) (names : list string) (anteAmount : num) :
  names <> [] ->
  NoDup (map (randomUUID e) (seq 0 (List.length names))) ->
  (forall i, (i < List.length names)%nat -> randomUUID e i <> "") ->
  tableInvariant (mount e names anteAmount).
Proof.
  intros Hne ND Hids.
  unfold tableInvariant. cbn zeta. rewrite mount_gameState.
  cbn [GameState.players GameState.currentDealerId
       GameState.playersPlayedThisRound].
  pose proof (initial_ids e names anteAmount) as Hmap.
  destruct names as [|n0 rest]; [contradiction|]. clear Hne.
  split; [|split].
  - rewrite Hmap. intros H. apply in_map_iff in H.
    destruct H as (i & Hi & Hin). apply in_seq in Hin.
    apply (Hids i); [lia|assumption].
  - exists (randomUUID e 0). split; [reflexivity|]. split; [|split].
    + rewrite Hmap. now left.
    + intros p Hp. cbn in Hp. destruct Hp as [<-|Hp].
      * cbn. now rewrite String.eqb_refl.
      * apply mapi_from_In in Hp. destruct Hp as (x & i & Hi & ->). cbn.
        destruct i as [|i]; [lia|]. cbn. symmetry. apply String.eqb_neq.
        intros E. cbn [List.length seq map] in ND.
        apply NoDup_cons_iff in ND. apply (proj1 ND). rewrite <- E.
        apply in_map. apply in_seq. cbn [List.length] in Hi. lia.
    + now left.
  - unfold playedOnlyChallengers.
    cbn [GameState.playersPlayedThisRound GameState.players initialGameState
         mapi_from List.length].
    split; [intros x []|lia].
Qed.

(** C7, as the code has it: on a table set up through the setup screen
    with distinct, non-empty player ids, after any session of user events
    the played list holds only ids of players other than the current
    dealer and is no longer than the number of players minus one. *)
Theorem played_only_challengers_in_session :
  forall (e : Env) (names : list string) (anteAmount : num)
         (c0 : Component) (evs : list Event),
    initialize e names anteAmount = Some c0 ->
    NoDup (map (randomUUID e) (seq 0 (List.length names))) ->
    (forall i, (i < List.length names)%nat -> randomUUID e i <> "") ->
    playedOnlyChallengers (gameState (session evs c0)).
Proof.
  intros e names anteAmount c0 evs Hinit ND Hids.
  unfold initialize, handleStart in Hinit.
  destruct (Nat.leb_spec 2 (List.length names)) as [Hlen|]; [|discriminate].
  inversion Hinit; subst c0; clear Hinit.
  apply (tableInvariant_session evs). apply mount_invariant; try assumption.
  intros ->. cbn in Hlen. lia.
Qed.

(** C6, as the code has it: while no round is active the card shows the
    start-round button only; the hand form is not rendered, so a click on a
    result button (or any other event of the form) does not reach its
    handler: the game state, the form and the error message are what they
    were, and no error is reported. *)
Theorem no_hand_without_active_round :
  forall (c : Component) (ev : Event),
    GameState.roundActive (gameState c) = false ->
    (forall e, ev <> ClickStartRound e) ->
    dispatch ev c = c.
Proof.
  intros c ev H Hev. destruct ev as [e|value|val|winner e|e]; cbn [dispatch];
    rewrite H; cbn [negb andb]; try reflexivity.
  now elim (Hev e).
Qed.

(** The one check of the setup: with fewer than two names no table is
    mounted. *)
Lemma initialize_needs_two_names :
  forall (e : Env) (names : list string) (anteAmount : num),
    (List.length names < 2)%nat -> initialize e names anteAmount = None.
Proof.
  intros e names anteAmount H. unfold initialize, handleStart.
  destruct (Nat.leb_spec 2 (List.length names)); [lia|reflexivity].
Qed.

End LedgerFacts.

(** * The ledger in binary64 *)

Section Binary64Facts.
Local Open Scope float_scope.

(** The example scenario of the specification, as the browser computes
    it: three players and an ante of 0.20; the ante brings the pot to 0.60,
    B loses 0.20 (pot 0.80, B has played), C wins 0.80 and busts the bank:
    B becomes dealer with an empty pot, no active round and orbit counter
    1; closing the bank on that table hands the deal to C. *)
Example scenario_of_the_specification :
  let c2 := roundABC in
  let c3 := session [ChangeChallenger "b"; ChangeBet (Some 0.2);
                     ClickTransaction dealer demoEnv] c2 in
  let c4 := session [ChangeChallenger "c"; ChangeBet (Some 0.8);
                     ClickTransaction player demoEnv] c3 in
  GameState.currentDealerId (gameState tableABC) = Some "a"
  /\ GameState.pot (gameState tableABC) = 0
  /\ GameState.pot (gameState c2) = 0.6
  /\ GameState.pot (gameState c3) = 0.8
  /\ GameState.playersPlayedThisRound (gameState c3) = ["b"]
  /\ GameState.pot (gameState c4) = 0
  /\ GameState.currentDealerId (gameState c4) = Some "b"
  /\ GameState.roundActive (gameState c4) = false
  /\ GameState.gameRound (gameState c4) = 1%Z
  /\ option_map (fun c5 => (GameState.currentDealerId (gameState c5),
                            GameState.pot (gameState c5)))
                (closeBank demoEnv c4)
     = Some (Some "c", 0).
Proof. vm_compute. repeat split. Qed.

(** C1: the pot of a running round can become negative.  With two players
    and an ante of 0.05 the pot is 0.10; a challenger-wins amount of 0.11
    passes the check of the amount field (so the result buttons are
    enabled) and the tolerance check of the handler, since 0.11 - 0.10 is
    0.009999999999999995 in binary64; the remainder rounds to -0.01, which
    is not "approximately zero", and the hand is booked as an ordinary one.
    The same happens with three players, a pot of 0.60 and an amount of
    0.606. *)
Theorem accepted_hand_leaves_negative_pot :
  let c1 := session [ClickStartRound demoEnv; ChangeBet (Some 0.11)] tableAB in
  let c2 := dispatch (ClickTransaction player demoEnv) c1 in
  let c3 := session [ClickStartRound demoEnv; ChangeBet (Some 0.606);
                     ClickTransaction player demoEnv] tableABC in
  GameState.pot (gameState c1) = 0.1
  /\ errorMsg c1 = None
  /\ selectedChallengerId c1 = "b"
  /\ (0.01 <? 0.11 - 0.1) = false
  /\ GameState.pot (gameState c2) = -0.01
  /\ (GameState.pot (gameState c2) <? 0) = true
  /\ GameState.roundActive (gameState c2) = true
  /\ GameState.pot (gameState roundABC) = 0.6
  /\ GameState.pot (gameState c3) = -0.01
  /\ GameState.roundActive (gameState c3) = true.
Proof. vm_compute. repeat split. Qed.


(** C5: the setup screen starts a game without an ante.  With the two
    default names and an ante field that has been emptied, or holds 0, or
    holds -1, the start button is enabled and [handleStart], which looks
    at the names only, hands the ante on as it is; the table is mounted
    with it, and collecting the antes leaves the pot at 0, or at -2. *)
Theorem game_starts_without_an_ante :
  let emptied := setupSession (fun s => s) [ChangeAnte None] initialSetup in
  let zero := setupSession (fun s => s) [ChangeAnte (Some 0)] initialSetup in
  let negative :=
    setupSession (fun s => s) [ChangeAnte (Some (-1))] initialSetup in
  clickStart emptied = Some (["Giocatore 1"; "Giocatore 2"], 0)
  /\ clickStart zero = Some (["Giocatore 1"; "Giocatore 2"], 0)
  /\ clickStart negative = Some (["Giocatore 1"; "Giocatore 2"], -1)
  /\ exists c0 c1 : Component float,
       initialize demoEnv ["Giocatore 1"; "Giocatore 2"] 0 = Some c0
       /\ (GameState.ante (gameState c0) <=? 0) = true
       /\ List.length (GameState.players (gameState c0)) = 2%nat
       /\ GameState.pot (gameState (dispatch (ClickStartRound demoEnv) c0))
          = 0
       /\ GameState.roundActive
            (gameState (dispatch (ClickStartRound demoEnv) c0)) = true
       /\ initialize demoEnv ["Giocatore 1"; "Giocatore 2"] (-1) = Some c1
       /\ GameState.pot (gameState (dispatch (ClickStartRound demoEnv) c1))
          = -2.
Proof.
  split; [vm_compute; reflexivity|]. split; [vm_compute; reflexivity|].
  split; [vm_compute; reflexivity|].
  do 2 eexists. split; [reflexivity|].
  split; [vm_compute; reflexivity|]. split; [vm_compute; reflexivity|].
  split; [vm_compute; reflexivity|]. split; [vm_compute; reflexivity|].
  split; [reflexivity|]. vm_compute. reflexivity.
Qed.

(** C6 fails on the handler: called on the table as it is mounted, where no
    round is active, [handleTransaction] books a dealer win of 0.20: the
    pot, the log and the played list change and no error is reported. *)
Lemma hand_recorded_without_active_round :
  exists c' : Component float,
    GameState.roundActive (gameState tableABC) = false
    /\ recordHand demoEnv (gameState tableABC) "b" 0.2 dealer = Some c'
    /\ GameState.pot (gameState tableABC) = 0
    /\ GameState.pot (gameState c') = 0.2
    /\ List.length (GameState.logs (gameState c')) = 1%nat
    /\ GameState.playersPlayedThisRound (gameState c') = ["b"]
    /\ errorMsg c' = None.
Proof.
  eexists. split; [reflexivity|]. split; [vm_compute; reflexivity|].
  vm_compute. repeat split.
Qed.

(** C7 fails on the handler: [handleTransaction] accepts the id of the
    current dealer as the challenger and puts it on the played list. *)
Lemma dealer_recorded_as_challenger :
  exists c' : Component float,
    GameState.currentDealerId (gameState roundABC) = Some "a"
    /\ recordHand demoEnv (gameState roundABC) "a" 0.2 dealer = Some c'
    /\ GameState.currentDealerId (gameState c') = Some "a"
    /\ GameState.playersPlayedThisRound (gameState c') = ["a"]
    /\ ~ playedOnlyChallengers (gameState c').
Proof.
  eexists. split; [reflexivity|]. split; [vm_compute; reflexivity|].
  split; [reflexivity|]. split; [reflexivity|].
  intros [H _]. destruct (H "a") as [_ Hd]; [now left|].
  apply Hd. reflexivity.
Qed.

End Binary64Facts.

(** * Whole cents in binary64 *)

Section WholeCents.

Lemma forallZ_spec (f : Z -> bool) (n : nat) (lo z : Z) :
  forallZ lo n f = true -> lo <= z < lo + Z.of_nat n -> f z = true.
Proof.
  revert lo. induction n as [|n IH]; intros lo H Hz; [lia|].
  cbn [forallZ] in H. apply andb_prop in H. destruct H as [H1 H2].
  destruct (Z.eq_dec z lo) as [->|Hne]; [exact H1|].
  apply (IH (lo + 1)); [exact H2|lia].
Qed.

(** The table of the whole cents up to the bound, computed entry by
    entry. *)
Lemma centsTable_checked :
  forallZ (-1) (Z.to_nat (centsBound + 2)) rowOk = true.
Proof. vm_compute. reflexivity. Qed.

Lemma cent_checked (k : Z) : -1 <= k <= centsBound -> centOk k = true.
Proof.
  intros Hk. pose proof centsTable_checked as H.
  apply (forallZ_spec rowOk _ _ k) in H; [|rewrite Z2Nat.id; lia].
  unfold rowOk in H. apply andb_prop in H. exact (proj1 H).
Qed.

Lemma entry_checked (q a : Z) :
  -1 <= q -> 0 <= a -> q + a <= centsBound -> entryOk q a = true.
Proof.
  intros Hq Ha Hp. pose proof centsTable_checked as H.
  apply (forallZ_spec rowOk _ _ q) in H; [|rewrite Z2Nat.id; lia].
  unfold rowOk in H. apply andb_prop in H. destruct H as [_ H].
  apply (forallZ_spec _ _ _ a) in H; [exact H|rewrite Z2Nat.id; lia].
Qed.

Lemma toCurrency_cents (k : Z) :
  -1 <= k <= centsBound -> toCurrency (cents k) = cents k.
Proof.
  intros Hk. pose proof (cent_checked k Hk) as H. unfold centOk in H.
  cbv zeta in H. apply andb_prop in H. destruct H as [H _].
  apply andb_prop in H. destruct H as [H _].
  apply andb_prop in H. destruct H as [H _].
  now apply FloatAxioms.Leibniz.eqb_spec.
Qed.

Lemma isApproximatelyZero_cents (k : Z) :
  -1 <= k <= centsBound -> isApproximatelyZero (cents k) = (k =? 0).
Proof.
  intros Hk. pose proof (cent_checked k Hk) as H. unfold centOk in H.
  cbv zeta in H. apply andb_prop in H. destruct H as [H _].
  apply andb_prop in H. destruct H as [H _].
  apply andb_prop in H. destruct H as [_ H].
  now apply Bool.eqb_prop.
Qed.


Lemma overdrawn_pot_refuses (k : Z) :
  1 <= k <= centsBound -> (cents k - cents (-1) >? lit_0_01)%num = true.
Proof.
  intros Hk. pose proof (cent_checked k ltac:(lia)) as H. unfold centOk in H.
  cbv zeta in H. apply andb_prop in H. destruct H as [_ H].
  destruct (Z.leb_spec 1 k); [exact H|lia].
Qed.

(** Taking [a] cents from a pot of [q + a] cents leaves [q] cents. *)
Lemma cents_taken (q a : Z) :
  -1 <= q -> 0 <= a -> q + a <= centsBound ->
  toCurrency (cents (q + a) - cents a)%num = cents q.
Proof.
  intros Hq Ha Hp. pose proof (entry_checked q a Hq Ha Hp) as H.
  unfold entryOk in H. cbv zeta in H.
  apply andb_prop in H. destruct H as [H _].
  apply andb_prop in H. destruct H as [H _].
  apply andb_prop in H. destruct H as [H _].
  now apply FloatAxioms.Leibniz.eqb_spec.
Qed.

(** Paying [a] cents into a pot of [q] cents makes [q + a] cents. *)
Lemma cents_paid (q a : Z) :
  -1 <= q -> 0 <= a -> q + a <= centsBound ->
  toCurrency (cents q + cents a)%num = cents (q + a).
Proof.
  intros Hq Ha Hp. pose proof (entry_checked q a Hq Ha Hp) as H.
  unfold entryOk in H. cbv zeta in H.
  apply andb_prop in H. destruct H as [H _].
  apply andb_prop in H. destruct H as [H _].
  apply andb_prop in H. destruct H as [_ H].
  now apply FloatAxioms.Leibniz.eqb_spec.
Qed.

(** An amount two cents or more above the pot is refused. *)
Lemma cents_refused (q a : Z) :
  2 <= q -> 0 <= a -> q + a <= centsBound ->
  (cents (q + a) - cents a >? lit_0_01)%num = true.
Proof.
  intros Hq Ha Hp. pose proof (entry_checked q a ltac:(lia) Ha Hp) as H.
  unfold entryOk in H. cbv zeta in H.
  apply andb_prop in H. destruct H as [H _].
  apply andb_prop in H. destruct H as [_ H].
  destruct (Z.leb_spec 2 q); [exact H|lia].
Qed.

(** An amount that is not above the pot is accepted. *)
Lemma cents_accepted (q a : Z) :
  0 <= q -> 0 <= a -> q + a <= centsBound ->
  (cents a - cents (q + a) >? lit_0_01)%num = false.
Proof.
  intros Hq Ha Hp. pose proof (entry_checked q a ltac:(lia) Ha Hp) as H.
  unfold entryOk in H. cbv zeta in H.
  apply andb_prop in H. destruct H as [_ H].
  destruct (Z.leb_spec 0 q); [now apply negb_true_iff|lia].
Qed.

(** A whole-cent amount that passes the pot check is at most a cent above
    the pot. *)
Lemma accepted_amount (g : GameState.t float) (p a : Z) :
  GameState.pot g = cents p ->
  -1 <= p <= centsBound -> 1 <= a <= centsBound ->
  exceedsPot g (cents a) = false -> a <= p + 1.
Proof.
  intros Hpot Hp Ha Hfit. unfold exceedsPot in Hfit. rewrite Hpot in Hfit.
  destruct (Z_le_gt_dec a (p + 1)) as [Hle|Hgt]; [exact Hle|exfalso].
  destruct (Z.eq_dec p (-1)) as [->|Hne].
  - rewrite overdrawn_pot_refuses in Hfit by lia. discriminate.
  - pose proof (cents_refused (a - p) p ltac:(lia) ltac:(lia) ltac:(lia))
      as H.
    replace (a - p + p) with a in H by lia.
    rewrite H in Hfit. discriminate.
Qed.


End WholeCents.

(** * The theorems at work on the example tables *)

Section Witnesses.

(** A win of 0.70 against the pot of 0.60 is refused. *)
Lemma insufficient_pot_rejected_witness :
  exists c' : Component float,
    recordHand demoEnv (gameState roundABC) "b" 0.7%float player = Some c'
    /\ gameState c' = gameState roundABC
    /\ errorMsg c' = Some "Impossibile pagare più del piatto disponibile.".
Proof.
  destruct (insufficient_pot_rejected (N := Binary64.number) demoEnv
              (gameState roundABC) "b" 0.7%float)
    as (c' & H1 & H2 & H3 & _); try (vm_compute; reflexivity).
  exists c'. repeat split; assumption.
Defined.

(** C wins the whole pot of 0.60: the bank is bust and the deal moves on. *)
Lemma bust_triggers_rotation_witness :
  exists c' : Component float,
    recordHand demoEnv (gameState roundABC) "c" 0.6%float player = Some c'
    /\ GameState.pot (gameState c') = 0%float
    /\ GameState.roundActive (gameState c') = false
    /\ GameState.gameRound (gameState c') = 1
    /\ GameState.playersPlayedThisRound (gameState c') = [].
Proof.
  destruct (bust_triggers_rotation (N := Binary64.number) demoEnv
              (gameState roundABC) "c" 0.6%float
              {| Player.id := "c"; Player.name := "C";
                 Player.isDealer := false; Player.roundsPlayed := 0 |}
              0%nat
              {| Player.id := "a"; Player.name := "A";
                 Player.isDealer := true; Player.roundsPlayed := 0 |})
    as (c' & next & bust & hand & H1 & _ & H3 & H4 & _ & H6 & H7 & _);
    try (vm_compute; reflexivity).
  - vm_compute. distinct_strings.
  - exists c'. repeat split; assumption.
Defined.

(** A closes the bank on the pot of 0.60. *)
Lemma closeBank_collects_and_rotates_witness :
  exists c' : Component float,
    closeBank demoEnv roundABC = Some c'
    /\ GameState.pot (gameState c') = 0%float
    /\ GameState.roundActive (gameState c') = false
    /\ GameState.gameRound (gameState c') = 1.
Proof.
  destruct (closeBank_collects_and_rotates (N := Binary64.number) demoEnv
              roundABC 0%nat
              {| Player.id := "a"; Player.name := "A";
                 Player.isDealer := true; Player.roundsPlayed := 0 |})
    as (c' & next & entry & H1 & _ & _ & _ & _ & _ & _ & _ & H9 & H10 & H11 & _);
    try (vm_compute; reflexivity).
  - vm_compute. distinct_strings.
  - exists c'. repeat split; assumption.
Defined.

(** C loses 0.10, then B wins 0.20: both challengers have played and the
    second orbit begins. *)
Lemma orbit_completion_witness :
  exists g' : GameState.t float,
    playHands
      [ {| challengerId := "c"; amount := 0.1%float; outcome := dealer;
           env := demoEnv |};
        {| challengerId := "b"; amount := 0.2%float; outcome := player;
           env := demoEnv |} ]
      (gameState roundABC) = Some g'
    /\ GameState.gameRound g' = 2
    /\ GameState.playersPlayedThisRound g' = [].
Proof.
  destruct (orbit_completion (N := Binary64.number) (gameState roundABC) "a"
              [ {| challengerId := "c"; amount := 0.1%float;
                   outcome := dealer; env := demoEnv |};
                {| challengerId := "b"; amount := 0.2%float;
                   outcome := player; env := demoEnv |} ])
    as [(g' & entry & rest & H1 & H2 & H3 & _) _];
    try (vm_compute; reflexivity).
  - vm_compute. distinct_strings.
  - vm_compute. lia.
  - vm_compute. tauto.
  - vm_compute. apply perm_swap.
  - exists g'. repeat split; assumption.
Defined.

(** Closing the bank keeps the roster and the ante. *)
Lemma roster_and_ante_preserved_witness :
  exists c' : Component float,
    perform demoEnv CloseBank roundABC = Some c'
    /\ sameRoster (gameState roundABC) (gameState c').
Proof.
  destruct (perform demoEnv CloseBank roundABC) as [c'|] eqn:H.
  - exists c'. split; [reflexivity|].
    exact (proj1 (roster_and_ante_preserved (N := Binary64.number)
                    demoEnv CloseBank roundABC c' H)).
  - vm_compute in H. discriminate.
Defined.

(** A click on "Vince Banco" before the antes are collected does nothing. *)
Lemma no_hand_without_active_round_witness :
  dispatch (ClickTransaction dealer demoEnv) tableABC = tableABC.
Proof.
  apply (no_hand_without_active_round (N := Binary64.number)).
  - reflexivity.
  - intros e. discriminate.
Defined.

(** After the antes and a hand lost by B the played list holds challengers
    only. *)
Lemma played_only_challengers_in_session_witness :
  playedOnlyChallengers
    (gameState
       (session [ClickStartRound demoEnv; ChangeBet (Some 0.2%float);
                 ClickTransaction dealer demoEnv] tableABC)).
Proof.
  apply (played_only_challengers_in_session (N := Binary64.number)
           demoEnv ["A"; "B"; "C"] 0.2%float).
  - reflexivity.
  - vm_compute. distinct_strings.
  - intros i _. cbn. discriminate.
Defined.


End Witnesses.

(** * The setup screen *)

(** ** Splicing *)

Lemma filter_index_above {A : Type} (l : list A) (k target : nat) :
  (target < k)%nat ->
  map fst (filter (fun xi => negb (Nat.eqb (snd xi) target))
                  (combine l (seq k (List.length l)))) = l.
Proof.
  revert k. induction l as [|x t IH]; intros k H; [reflexivity|].
  cbn. destruct (Nat.eqb_spec k target); [lia|]. cbn.
  f_equal. apply IH. lia.
Qed.

Lemma filter_index_from {A : Type} (l : list A) (k i : nat) :
  map fst (filter (fun xi => negb (Nat.eqb (snd xi) (k + i)))
                  (combine l (seq k (List.length l))))
  = (firstn i l ++ skipn (S i) l)%list.
Proof.
  revert k i. induction l as [|x t IH]; intros k i.
  - now destruct i.
  - cbn [List.length seq combine filter snd].
    destruct i as [|i].
    + rewrite Nat.add_0_r, Nat.eqb_refl. cbn [negb firstn skipn app].
      apply filter_index_above. lia.
    + destruct (Nat.eqb_spec k (k + S i)); [lia|]. cbn [negb map fst].
      cbn [firstn skipn app]. f_equal.
      replace (k + S i)%nat with (S k + i)%nat by lia. apply IH.
Qed.

Lemma filterOutIndex_splice {A : Type} (index : nat) (l : list A) :
  filterOutIndex index l = (firstn index l ++ skipn (S index) l)%list.
Proof. apply (filter_index_from l 0 index). Qed.

Lemma nth_error_pieces {A : Type} (l : list A) (i : nat) (x : A) :
  nth_error l i = Some x -> l = (firstn i l ++ x :: skipn (S i) l)%list.
Proof.
  revert i. induction l as [|y t IH]; intros i H; [now destruct i|].
  destruct i as [|i]; cbn in *.
  - now inversion H.
  - f_equal. now apply IH.
Qed.

Lemma spliceIn_spliceOut {A : Type} (l : list A) (i : nat) (x : A) :
  nth_error l i = Some x -> spliceIn i x (fst (spliceOut i l)) = l.
Proof.
  intros H. unfold spliceIn, spliceOut. cbn [fst].
  assert (Hlen : (i < List.length l)%nat) by (apply nth_error_Some; congruence).
  rewrite firstn_app, firstn_firstn, Nat.min_id, length_firstn.
  replace (i - Nat.min i (List.length l))%nat with 0%nat by lia.
  cbn [firstn]. rewrite app_nil_r.
  rewrite skipn_app, length_firstn, skipn_firstn_comm.
  replace (i - i)%nat with 0%nat by lia.
  replace (i - Nat.min i (List.length l))%nat with 0%nat by lia.
  cbn [firstn skipn app]. symmetry. now apply nth_error_pieces.
Qed.

Lemma spliceOut_spliceIn {A : Type} (l : list A) (j : nat) (x : A) :
  (j <= List.length l)%nat ->
  spliceOut j (spliceIn j x l) = (l, Some x).
Proof.
  intros H. unfold spliceIn, spliceOut.
  assert (Hf : List.length (firstn j l) = j) by (rewrite length_firstn; lia).
  f_equal.
  - rewrite firstn_app, Hf, Nat.sub_diag. cbn [firstn].
    rewrite app_nil_r, firstn_firstn, Nat.min_id.
    rewrite skipn_app, Hf.
    rewrite (skipn_all2 (n := S j) (firstn j l)) by lia.
    replace (S j - j)%nat with 1%nat by lia. cbn [skipn app].
    apply firstn_skipn.
  - rewrite nth_error_app2 by lia. rewrite Hf, Nat.sub_diag. reflexivity.
Qed.

Lemma spliceIn_nth {A : Type} (l : list A) (j : nat) (x : A) :
  (j <= List.length l)%nat -> nth_error (spliceIn j x l) j = Some x.
Proof.
  intros H. unfold spliceIn.
  assert (Hf : List.length (firstn j l) = j) by (rewrite length_firstn; lia).
  rewrite nth_error_app2 by lia. rewrite Hf, Nat.sub_diag. reflexivity.
Qed.

Lemma spliceIn_perm {A : Type} (l : list A) (j : nat) (x : A) :
  Permutation (spliceIn j x l) (x :: l).
Proof.
  unfold spliceIn. rewrite <- (firstn_skipn j l) at 3.
  symmetry. apply Permutation_middle.
Qed.

Lemma spliceOut_perm {A : Type} (l : list A) (i : nat) (x : A) :
  nth_error l i = Some x -> Permutation (x :: fst (spliceOut i l)) l.
Proof.
  intros H. unfold spliceOut. cbn [fst].
  rewrite (nth_error_pieces l i x H) at 3. apply Permutation_middle.
Qed.

Lemma spliceOut_length {A : Type} (l : list A) (i : nat) :
  (i < List.length l)%nat ->
  S (List.length (fst (spliceOut i l))) = List.length l.
Proof.
  intros H. unfold spliceOut. cbn [fst].
  rewrite length_app, length_firstn, length_skipn. lia.
Qed.

Lemma in_firstn {A : Type} (n : nat) (l : list A) (x : A) :
  In x (firstn n l) -> In x l.
Proof.
  intros H. rewrite <- (firstn_skipn n l). apply in_or_app. now left.
Qed.

Lemma in_skipn {A : Type} (n : nat) (l : list A) (x : A) :
  In x (skipn n l) -> In x l.
Proof.
  intros H. rewrite <- (firstn_skipn n l). apply in_or_app. now right.
Qed.

Lemma filterOutIndex_nth {A : Type} (index : nat) (l : list A) (k : nat) :
  (index < List.length l)%nat ->
  nth_error (filterOutIndex index l) k
  = if (k <? index)%nat then nth_error l k else nth_error l (S k).
Proof.
  intros H. rewrite filterOutIndex_splice. destruct (Nat.ltb_spec k index).
  - rewrite nth_error_app1 by (rewrite length_firstn; lia).
    rewrite nth_error_firstn.
    destruct (Nat.ltb_spec k index); [reflexivity|lia].
  - rewrite nth_error_app2 by (rewrite length_firstn; lia).
    rewrite length_firstn, nth_error_skipn. f_equal. lia.
Qed.

Lemma filterOutIndex_length {A : Type} (index : nat) (l : list A) :
  (index < List.length l)%nat ->
  S (List.length (filterOutIndex index l)) = List.length l.
Proof.
  intros H. rewrite filterOutIndex_splice.
  rewrite length_app, length_firstn, length_skipn. lia.
Qed.

Lemma filterOutIndex_In {A : Type} (index : nat) (l : list A) (x : A) :
  In x (filterOutIndex index l) -> In x l.
Proof.
  rewrite filterOutIndex_splice. intros H. apply in_app_or in H.
  destruct H as [H|H]; [eapply in_firstn|eapply in_skipn]; eassumption.
Qed.

Lemma assignAt_In {A : Type} (index : nat) (value : A) (l l' : list A)
      (x : A) :
  assignAt index value l = Some l' -> In x l' -> x = value \/ In x l.
Proof.
  unfold assignAt. intros H Hin.
  destruct (index <? List.length l)%nat.
  - inversion H; subst. apply in_app_or in Hin.
    destruct Hin as [Hin|[<-|Hin]]; [right|now left|right].
    + apply (in_firstn index). exact Hin.
    + apply (in_skipn (S index)). exact Hin.
  - destruct (index =? List.length l)%nat; [|discriminate].
    inversion H; subst. apply in_app_or in Hin.
    destruct Hin as [Hin|[<-|[]]]; [now right|now left].
Qed.

Section SetupFacts.
Context {num : Type} {N : Number num}.
Variable trim : string -> string.

Local Abbreviation Setup := (Setup num).

(** ** Reordering by drag and drop *)

(** X1.  Dropping the dragged name on a row keeps the roster the same names,
    each as often as before, and leaves the dragged name on that row. *)
Theorem drop_keeps_the_roster :
  forall (s : Setup) (dragged target : nat) (x : string),
    draggedIndex s = Some dragged ->
    nth_error (names s) dragged = Some x ->
    (target < List.length (names s))%nat ->
    exists s' : Setup,
      handleDrop target s = Some s'
      /\ Permutation (names s') (names s)
      /\ List.length (names s') = List.length (names s)
      /\ nth_error (names s') target = Some x
      /\ setupAnte s' = setupAnte s.
Proof.
  intros s dragged target x Hd Hx Ht. unfold handleDrop. rewrite Hd.
  destruct (Nat.eqb_spec dragged target) as [->|Hne].
  - exists s. repeat split; try reflexivity; assumption.
  - unfold spliceOut at 1. rewrite Hx. eexists. split; [reflexivity|].
    cbn [names setupAnte].
    change (firstn dragged (names s) ++ skipn (S dragged) (names s))%list
      with (fst (spliceOut dragged (names s))).
    assert (Hlen : (dragged < List.length (names s))%nat)
      by (apply nth_error_Some; congruence).
    pose proof (spliceOut_length (names s) dragged Hlen) as Hrest.
    assert (Hperm : Permutation
                      (spliceIn target x (fst (spliceOut dragged (names s))))
                      (names s)).
    { etransitivity; [apply spliceIn_perm|]. now apply spliceOut_perm. }
    repeat split.
    + exact Hperm.
    + now apply Permutation_length.
    + apply spliceIn_nth. lia.
Qed.

Lemma drag_moves (s : Setup) (i j : nat) (x : string) :
  editingIndex s = None ->
  nth_error (names s) i = Some x ->
  (j < List.length (names s))%nat ->
  i <> j ->
  names (setupDispatch trim (Drag i j) s)
  = spliceIn j x (fst (spliceOut i (names s)))
  /\ editingIndex (setupDispatch trim (Drag i j) s) = None.
Proof.
  intros He Hx Hj Hne.
  assert (Hi : (i < List.length (names s))%nat)
    by (apply nth_error_Some; congruence).
  cbn [setupDispatch]. rewrite He.
  destruct (Nat.ltb_spec i (List.length (names s))); [|lia].
  destruct (Nat.ltb_spec j (List.length (names s))); [|lia].
  cbn [andb]. unfold handleDrop, handleDragStart, spliceOut. rewrite He.
  cbn [draggedIndex names].
  destruct (Nat.eqb_spec i j); [contradiction|].
  rewrite Hx. cbn [handleDragEnd names editingIndex fst].
  split; reflexivity.
Qed.

Lemma drag_stays (s : Setup) (i j : nat) :
  editingIndex s <> None \/ (List.length (names s) <= i)%nat
  \/ (List.length (names s) <= j)%nat \/ i = j ->
  names (setupDispatch trim (Drag i j) s) = names s
  /\ editingIndex (setupDispatch trim (Drag i j) s) = editingIndex s.
Proof.
  intros H. cbn [setupDispatch].
  destruct (editingIndex s) as [k|] eqn:He; [now split|].
  destruct (Nat.ltb_spec i (List.length (names s))); [|now split].
  destruct (Nat.ltb_spec j (List.length (names s))); [|now split].
  destruct H as [H|[H|[H|H]]]; [congruence|lia|lia|subst j].
  cbn [andb]. unfold handleDrop, handleDragStart. rewrite He.
  cbn [draggedIndex]. rewrite Nat.eqb_refl.
  cbn [handleDragEnd names editingIndex]. now split.
Qed.

(** X2.  Dragging a name from row [i] to row [j] and then from row [j] back
    to row [i] leaves the roster as it was. *)
Theorem drag_there_and_back :
  forall (s : Setup) (i j : nat),
    names (setupSession trim [Drag i j; Drag j i] s) = names s.
Proof.
  intros s i j. unfold setupSession. cbn [fold_left].
  destruct (editingIndex s) as [k|] eqn:He.
  { destruct (drag_stays s i j) as [H1 H2]; [left; congruence|].
    destruct (drag_stays (setupDispatch trim (Drag i j) s) j i) as [H3 _];
      [left; congruence|]. congruence. }
  destruct (Nat.eq_dec i j) as [->|Hne].
  { destruct (drag_stays s j j) as [H1 H2]; [now right; right; right|].
    destruct (drag_stays (setupDispatch trim (Drag j j) s) j j) as [H3 _];
      [now right; right; right|]. congruence. }
  destruct (nth_error (names s) i) as [x|] eqn:Hx.
  2:{ apply nth_error_None in Hx.
      destruct (drag_stays s i j) as [H1 H2]; [now right; left|].
      destruct (drag_stays (setupDispatch trim (Drag i j) s) j i) as [H3 _];
        [right; right; left; now rewrite H1|]. congruence. }
  destruct (Nat.ltb_spec j (List.length (names s))) as [Hj|Hj].
  2:{ destruct (drag_stays s i j) as [H1 H2]; [now right; right; left|].
      destruct (drag_stays (setupDispatch trim (Drag i j) s) j i) as [H3 _];
        [right; left; now rewrite H1|]. congruence. }
  assert (Hi : (i < List.length (names s))%nat)
    by (apply nth_error_Some; congruence).
  pose proof (spliceOut_length (names s) i Hi) as Hrest.
  destruct (drag_moves s i j x He Hx Hj Hne) as [H1 H2].
  destruct (drag_moves (setupDispatch trim (Drag i j) s) j i x) as [H3 _];
    try assumption.
  - rewrite H1. apply spliceIn_nth. lia.
  - rewrite H1. unfold spliceIn. rewrite length_app. cbn [List.length].
    rewrite length_firstn, length_skipn. lia.
  - congruence.
  - rewrite H3, H1. rewrite spliceOut_spliceIn by lia. cbn [fst].
    now apply spliceIn_spliceOut.
Qed.

(** ** Adding, removing and renaming *)

(** X3.  Removing a row takes out that name and nothing else: the names
    before it stay where they are and the names after it move up by one. *)
Theorem removePlayer_takes_out_one_row :
  forall (s : Setup) (index : nat),
    (index < List.length (names s))%nat ->
    S (List.length (names (removePlayer index s))) = List.length (names s)
    /\ forall k : nat,
         nth_error (names (removePlayer index s)) k
         = if (k <? index)%nat then nth_error (names s) k
           else nth_error (names s) (S k).
Proof.
  intros s index H. cbn [removePlayer names]. split.
  - now apply filterOutIndex_length.
  - intros k. now apply filterOutIndex_nth.
Qed.

(** X4.  Removing the last row right after the form was submitted brings the
    roster back, whether the submission added a name or not. *)
Theorem remove_undoes_add :
  forall s : Setup,
    names (removePlayer (List.length (names s)) (addPlayer trim s)) = names s.
Proof.
  intros s. unfold addPlayer.
  destruct (negb (String.eqb (trim (newName s)) ""));
    cbn [removePlayer names]; rewrite filterOutIndex_splice.
  - rewrite firstn_app, Nat.sub_diag, firstn_all. cbn [firstn].
    rewrite skipn_all2 by (rewrite length_app; cbn; lia).
    now rewrite !app_nil_r.
  - rewrite firstn_all, skipn_all2 by lia. apply app_nil_r.
Qed.

(** X5.  The index of the row being edited is not adjusted when another row
    is removed: if a row above it is removed, the text that is then saved
    lands on the following player, and the player who was chosen for editing
    keeps the old name. *)
Theorem edit_lands_on_the_row_not_the_player :
  forall (s : Setup) (k i : nat) (v chosen next : string),
    editingIndex s = None ->
    (i < k)%nat ->
    nth_error (names s) k = Some chosen ->
    nth_error (names s) (S k) = Some next ->
    trim v <> "" ->
    let s' := setupSession trim
                [ClickEdit k; ClickRemove i; TypeEditValue v; ClickSave] s in
    nth_error (names s') (k - 1) = Some chosen
    /\ nth_error (names s') k = Some (trim v)
    /\ S (List.length (names s')) = List.length (names s)
    /\ editingIndex s' = None.
Proof.
  intros s k i v chosen next He Hi Hk Hnext Hv.
  assert (Hlen : (S k < List.length (names s))%nat)
    by (apply nth_error_Some; congruence).
  unfold setupSession. cbn [fold_left].
  (* the click on the name *)
  assert (H1 : setupDispatch trim (ClickEdit k) s = startEditing k s).
  { cbn [setupDispatch]. unfold plainRow. rewrite He.
    destruct (Nat.ltb_spec k (List.length (names s))); [reflexivity|lia]. }
  rewrite H1. clear H1.
  (* the removal of an earlier row *)
  assert (H2 : setupDispatch trim (ClickRemove i) (startEditing k s)
               = removePlayer i (startEditing k s)).
  { cbn [setupDispatch]. unfold plainRow. cbn [startEditing names editingIndex].
    destruct (Nat.ltb_spec i (List.length (names s))); [|lia].
    destruct (Nat.eqb_spec k i); [lia|reflexivity]. }
  rewrite H2. clear H2.
  pose proof (filterOutIndex_length i (names s) ltac:(lia)) as Hlen'.
  (* typing and saving *)
  cbn [setupDispatch]. unfold editRowShown.
  cbn [removePlayer startEditing names editingIndex].
  destruct (Nat.ltb_spec k (List.length (filterOutIndex i (names s))));
    [|lia].
  cbn [names editingIndex]. unfold saveEdit. cbn [editingIndex editValue names].
  apply String.eqb_neq in Hv. rewrite Hv. cbn [negb].
  unfold assignAt.
  destruct (Nat.ltb_spec k (List.length (filterOutIndex i (names s))));
    [|lia].
  cbn [names editingIndex].
  assert (Hf : List.length (firstn k (filterOutIndex i (names s))) = k)
    by (rewrite length_firstn; lia).
  repeat split.
  - rewrite nth_error_app1 by lia. rewrite nth_error_firstn.
    destruct (Nat.ltb_spec (k - 1) k); [|lia].
    rewrite filterOutIndex_nth by lia.
    destruct (Nat.ltb_spec (k - 1) i); [lia|].
    replace (S (k - 1)) with k by lia. exact Hk.
  - rewrite nth_error_app2 by lia. rewrite Hf, Nat.sub_diag. reflexivity.
  - rewrite length_app. cbn [List.length]. rewrite Hf, length_skipn. lia.
Qed.

(** X6.  Choosing a row for editing, typing and saving renames that row and
    no other, to the trimmed text; if the text is blank the save is a cancel
    and the roster stays as it was. Either way editing is over. *)
Theorem edit_renames_one_row :
  forall (s : Setup) (k : nat) (v : string),
    editingIndex s = None ->
    (k < List.length (names s))%nat ->
    let s' := setupSession trim [ClickEdit k; TypeEditValue v; ClickSave] s in
    editingIndex s' = None
    /\ List.length (names s') = List.length (names s)
    /\ (forall j : nat,
          j <> k -> nth_error (names s') j = nth_error (names s) j)
    /\ nth_error (names s') k
       = if String.eqb (trim v) "" then nth_error (names s) k
         else Some (trim v).
Proof.
  intros s k v He Hk. unfold setupSession. cbn [fold_left].
  assert (H1 : setupDispatch trim (ClickEdit k) s = startEditing k s).
  { cbn [setupDispatch]. unfold plainRow. rewrite He.
    destruct (Nat.ltb_spec k (List.length (names s))); [reflexivity|lia]. }
  rewrite H1. clear H1.
  cbn [setupDispatch]. unfold editRowShown.
  cbn [startEditing names editingIndex].
  destruct (Nat.ltb_spec k (List.length (names s))); [|lia].
  cbn [names editingIndex]. unfold saveEdit. cbn [editingIndex editValue names].
  destruct (String.eqb (trim v) ""); cbn [negb].
  - destruct (Nat.ltb_spec k (List.length (names s))); [|lia].
    cbn [cancelEdit names editingIndex].
    split; [reflexivity|]. split; [reflexivity|].
    split; [intros j _; reflexivity|reflexivity].
  - unfold assignAt.
    destruct (Nat.ltb_spec k (List.length (names s))); [|lia].
    cbn [names editingIndex].
    assert (Hf : List.length (firstn k (names s)) = k)
      by (rewrite length_firstn; lia).
    split; [reflexivity|]. split; [|split].
    + rewrite length_app. cbn [List.length]. rewrite Hf, length_skipn. lia.
    + intros j Hj. destruct (Nat.lt_ge_cases j k) as [Hlt|Hge].
      * rewrite nth_error_app1 by lia. rewrite nth_error_firstn.
        destruct (Nat.ltb_spec j k); [reflexivity|lia].
      * rewrite nth_error_app2 by lia. rewrite Hf.
        destruct (j - k)%nat as [|m] eqn:Hm; [lia|].
        cbn [nth_error]. rewrite nth_error_skipn. f_equal. lia.
    + rewrite nth_error_app2 by lia. rewrite Hf, Nat.sub_diag. reflexivity.
Qed.

(** ** What the setup screen hands over *)

Lemma named_dispatch (ev : SetupEvent) (s : Setup) :
  Forall (fun n => n <> "") (names s) ->
  Forall (fun n => n <> "") (names (setupDispatch trim ev s)).
Proof.
  intros H.
  destruct ev as [val|value| |row|row|value| | |from to].
  9:{ destruct (editingIndex s) as [k|] eqn:He.
      { destruct (drag_stays s from to) as [-> _];
          [left; congruence|exact H]. }
      destruct (Nat.eq_dec from to) as [->|Hne].
      { destruct (drag_stays s to to) as [-> _];
          [now right; right; right|exact H]. }
      destruct (nth_error (names s) from) as [x|] eqn:Hx.
      2:{ apply nth_error_None in Hx.
          destruct (drag_stays s from to) as [-> _];
            [now right; left|exact H]. }
      destruct (Nat.ltb_spec to (List.length (names s))) as [Hto|Hto].
      2:{ destruct (drag_stays s from to) as [-> _];
            [now right; right; left|exact H]. }
      destruct (drag_moves s from to x He Hx Hto Hne) as [-> _].
      eapply Permutation_Forall; [|exact H]. symmetry.
      etransitivity; [apply spliceIn_perm|]. now apply spliceOut_perm. }
  all: cbn [setupDispatch]; try exact H.
  - unfold addPlayer.
    destruct (String.eqb_spec (trim (newName s)) "") as [|Hne]; [exact H|].
    cbn [negb names]. apply Forall_app. split; [exact H|].
    constructor; [exact Hne|constructor].
  - destruct (plainRow row s); [|exact H]. cbn [removePlayer names].
    apply Forall_forall. intros x Hx. apply filterOutIndex_In in Hx.
    exact (proj1 (Forall_forall _ _) H x Hx).
  - destruct (plainRow row s); exact H.
  - destruct (editRowShown s); exact H.
  - destruct (editRowShown s); [|exact H]. unfold saveEdit.
    destruct (editingIndex s) as [index|]; [|exact H].
    destruct (editValue s) as [value|]; [|exact H].
    destruct (String.eqb_spec (trim value) "") as [|Hne]; [exact H|].
    cbn [negb].
    destruct (assignAt index (trim value) (names s)) as [updated|] eqn:Ha;
      [|exact H].
    cbn [names]. apply Forall_forall. intros x Hx.
    destruct (assignAt_In _ _ _ _ _ Ha Hx) as [->|Hin]; [exact Hne|].
    exact (proj1 (Forall_forall _ _) H x Hin).
  - destruct (editRowShown s); exact H.
Qed.

Lemma named_session (evs : list SetupEvent) (s : Setup) :
  Forall (fun n => n <> "") (names s) ->
  Forall (fun n => n <> "") (names (setupSession trim evs s)).
Proof.
  unfold setupSession. revert s.
  induction evs as [|ev evs IH]; intros s Hs; cbn [fold_left]; [exact Hs|].
  apply IH. now apply named_dispatch.
Qed.

(** X7.  Whatever is done on the setup screen, a game is started only with
    at least two players, and none of them has the empty name. *)
Theorem setup_hands_over_named_players :
  forall (evs : list SetupEvent) (players : list string) (ante : num),
    clickStart (setupSession trim evs initialSetup) = Some (players, ante) ->
    (2 <= List.length players)%nat /\ Forall (fun n => n <> "") players.
Proof.
  intros evs players ante H.
  assert (Hinv : Forall (fun n => n <> "")
                        (names (setupSession trim evs initialSetup))).
  { apply named_session. cbn. repeat constructor; discriminate. }
  unfold clickStart, handleStart in H.
  destruct (_ || _); [discriminate|].
  destruct (Nat.leb_spec 2 (List.length
                              (names (setupSession trim evs initialSetup))));
    [|discriminate].
  inversion H; subst. split; assumption.
Qed.

(** Only the ante field changes the ante. *)
Lemma setupDispatch_ante (ev : SetupEvent) (s : Setup) :
  setupAnte (setupDispatch trim ev s)
  = match ev with
    | ChangeAnte val => setupAnte (changeAnte val s)
    | _ => setupAnte s
    end.
Proof.
  destruct ev as [val|value| |row|row|value| | |from to];
    cbn [setupDispatch]; try reflexivity.
  - unfold addPlayer. now destruct (negb _).
  - now destruct (plainRow row s).
  - now destruct (plainRow row s).
  - now destruct (editRowShown s).
  - destruct (editRowShown s); [|reflexivity]. unfold saveEdit.
    destruct (editingIndex s); [|reflexivity].
    destruct (editValue s); [|reflexivity].
    destruct (negb _); [|reflexivity].
    now destruct (assignAt _ _ _).
  - now destruct (editRowShown s).
  - destruct (_ && _); [|reflexivity].
    unfold handleDrop, handleDragStart, spliceOut.
    destruct (editingIndex s); cbn [draggedIndex names setupAnte].
    + destruct (draggedIndex s); [|reflexivity].
      destruct (Nat.eqb _ _); [reflexivity|].
      now destruct (nth_error _ _).
    + destruct (Nat.eqb _ _); [reflexivity|].
      now destruct (nth_error _ _).
Qed.

End SetupFacts.

(** * The setup screen in binary64 *)

Section Binary64Setup.
Variable trim : string -> string.

(** X8.  In binary64 the ante of the setup screen is never NaN, whatever is
    typed into its field: the [|| 0] of the [onChange] replaces a NaN by 0,
    and nothing else sets the ante. *)
Theorem setup_ante_is_never_NaN :
  forall evs : list (SetupEvent (num := PrimFloat.float)),
    isNaN (setupAnte (setupSession trim evs
                        (initialSetup (N := Binary64.number))))
    = false.
Proof.
  intros evs.
  assert (H0 : isNaN (setupAnte (initialSetup (N := Binary64.number)))
               = false) by (vm_compute; reflexivity).
  revert H0. generalize (initialSetup (N := Binary64.number)).
  unfold setupSession. induction evs as [|ev evs IH]; intros s Hs;
    cbn [fold_left]; [exact Hs|].
  apply IH. rewrite setupDispatch_ante.
  destruct ev as [val| | | | | | | |]; try exact Hs.
  unfold changeAnte. cbn [setupAnte].
  destruct val as [x|]; [|vm_compute; reflexivity].
  destruct (isNaN x) eqn:Hx; cbn [orb]; [vm_compute; reflexivity|].
  destruct (_ && _); [vm_compute; reflexivity|exact Hx].
Qed.

End Binary64Setup.

(** * More about the table *)

Section TableFacts.
Context {num : Type} {N : Number num}.

Local Abbreviation GameState := (GameState.t num).
Local Abbreviation Component := (Component num).

(** ** Who is suggested as the next challenger *)

Lemma rem_index (j i n : nat) :
  (0 < n)%nat ->
  Z.rem (Z.of_nat j + Z.of_nat i) (Z.of_nat n) = Z.of_nat ((j + i) mod n).
Proof.
  intros H. rewrite Z.rem_mod_nonneg by lia.
  rewrite Nat2Z.inj_mod, Nat2Z.inj_add. reflexivity.
Qed.

Lemma id_is_position (l : list Player.t) (d k : nat) (dlr p : Player.t) :
  NoDup (map Player.id l) ->
  nth_error l d = Some dlr ->
  nth_error l k = Some p ->
  id_is (Some (Player.id dlr)) p = Nat.eqb k d.
Proof.
  intros ND Hd Hk. cbn [id_is].
  destruct (Nat.eqb_spec k d) as [->|Hne].
  - rewrite Hd in Hk. inversion Hk; subst. apply String.eqb_refl.
  - apply String.eqb_neq. intros E. apply Hne.
    assert (Hlt : (k < List.length (map Player.id l))%nat).
    { rewrite length_map. apply nth_error_Some. congruence. }
    apply (proj1 (NoDup_nth_error (map Player.id l)) ND k d Hlt).
    rewrite !nth_error_map, Hd, Hk. cbn. now rewrite E.
Qed.

(** One turn of the loop of [getNextChallengerId]. *)
Lemma scanFrom_step (g : GameState) (d j i : nat) (dlr p : Player.t)
      (rest : list nat) :
  NoDup (map Player.id (GameState.players g)) ->
  nth_error (GameState.players g) d = Some dlr ->
  GameState.currentDealerId g = Some (Player.id dlr) ->
  nth_error (GameState.players g)
            ((j + i) mod List.length (GameState.players g))%nat = Some p ->
  scanFrom g (Z.of_nat j) (i :: rest)
  = if Nat.eqb ((j + i) mod List.length (GameState.players g))%nat d
    then scanFrom g (Z.of_nat j) rest
    else Player.id p.
Proof.
  intros ND Hd Hcur Hp. cbn [scanFrom].
  assert (Hn : (0 < List.length (GameState.players g))%nat).
  { destruct (GameState.players g); [now destruct d|cbn; lia]. }
  rewrite (rem_index _ _ _ Hn), index_of_nat, Hp, Hcur.
  rewrite (id_is_position _ _ _ _ _ ND Hd Hp).
  now destruct (Nat.eqb _ d).
Qed.

(** X9.  The challenger suggested after a hand of the player at position [j]
    is the next player in turn order, the dealer skipped; with two players
    there is nobody else and the suggestion is empty. At the start of a
    round the scan starts from the dealer. *)
Theorem next_challenger_in_turn_order :
  forall (g : GameState) (d j : nat) (dlr r : Player.t),
    NoDup (map Player.id (GameState.players g)) ->
    nth_error (GameState.players g) d = Some dlr ->
    GameState.currentDealerId g = Some (Player.id dlr) ->
    Player.id dlr <> "" ->
    nth_error (GameState.players g) j = Some r ->
    Player.id r <> "" ->
    let n := List.length (GameState.players g) in
    let suggested := getNextChallengerId g (Some (Player.id r)) in
    (((j + 1) mod n)%nat <> d ->
     option_map Player.id
                (nth_error (GameState.players g) ((j + 1) mod n)%nat)
     = Some suggested)
    /\ (((j + 1) mod n)%nat = d -> (3 <= n)%nat ->
        option_map Player.id
                   (nth_error (GameState.players g) ((j + 2) mod n)%nat)
        = Some suggested)
    /\ (((j + 1) mod n)%nat = d -> (n <= 2)%nat -> suggested = "")
    /\ getNextChallengerId g None
       = getNextChallengerId g (Some (Player.id dlr)).
Proof.
  intros g d j dlr r ND Hd Hcur Hdne Hj Hrne. cbv zeta.
  set (n := List.length (GameState.players g)).
  assert (Hdn : (d < n)%nat) by (apply nth_error_Some; congruence).
  assert (Hjn : (j < n)%nat) by (apply nth_error_Some; congruence).
  assert (Hs : getNextChallengerId g (Some (Player.id r))
               = scanFrom g (Z.of_nat j) (seq 1 (n - 1))).
  { unfold getNextChallengerId. rewrite Hcur. cbn [truthy].
    apply String.eqb_neq in Hdne, Hrne. rewrite Hdne, Hrne. cbn [negb orb].
    fold n. destruct (Z.eqb_spec (Z.of_nat n) 0); [lia|].
    cbn [orb]. rewrite (findIndex_unique _ _ _ ND Hj).
    destruct (Z.eqb_spec (Z.of_nat j) (-1)); [lia|]. reflexivity. }
  assert (Hat : forall i, exists p,
             nth_error (GameState.players g) ((j + i) mod n)%nat = Some p).
  { intros i. destruct (nth_error (GameState.players g) ((j + i) mod n)%nat)
      eqn:E; [eauto|].
    apply nth_error_None in E.
    pose proof (Nat.mod_upper_bound (j + i)%nat n). fold n in E. lia. }
  assert (Hseq2 : forall m, (2 <= m)%nat ->
                            seq 1 (m - 1) = (1 :: seq 2 (m - 2))%nat).
  { intros [|[|m]] Hm; try lia. cbn. now rewrite Nat.sub_0_r. }
  assert (Hseq3 : forall m, (3 <= m)%nat ->
                            seq 1 (m - 1) = (1 :: 2 :: seq 3 (m - 3))%nat).
  { intros [|[|[|m]]] Hm; try lia. cbn. now rewrite Nat.sub_0_r. }
  rewrite Hs. clear Hs.
  destruct (Hat 1%nat) as [p1 Hp1]. destruct (Hat 2%nat) as [p2 Hp2].
  pose proof (fun rest => scanFrom_step g d j 1 dlr p1 rest ND Hd Hcur Hp1)
    as Step1.
  pose proof (fun rest => scanFrom_step g d j 2 dlr p2 rest ND Hd Hcur Hp2)
    as Step2.
  fold n in Step1, Step2.
  repeat split.
  - intros Hne. rewrite Hp1. cbn. f_equal.
    assert (2 <= n)%nat.
    { destruct (Nat.eq_dec n 1) as [E|E]; [|lia].
      rewrite E, Nat.mod_1_r in Hne. lia. }
    rewrite Hseq2, Step1 by assumption.
    destruct (Nat.eqb_spec ((j + 1) mod n)%nat d); [contradiction|reflexivity].
  - intros He Hn3. rewrite Hp2. cbn. f_equal.
    assert (Hne2 : ((j + 2) mod n)%nat <> d).
    { replace (j + 2)%nat with ((j + 1) + 1)%nat by lia.
      rewrite <- Nat.Div0.add_mod_idemp_l. rewrite He.
      destruct (Nat.eq_dec (S d) n) as [E|E].
      - rewrite Nat.add_1_r, E, Nat.Div0.mod_same. lia.
      - rewrite Nat.mod_small by lia. lia. }
    rewrite Hseq3, Step1, He, Nat.eqb_refl, Step2 by assumption.
    destruct (Nat.eqb_spec ((j + 2) mod n)%nat d); [contradiction|reflexivity].
  - intros He Hn2.
    destruct (Nat.eq_dec n 1) as [E|E].
    + rewrite E. reflexivity.
    + replace (n - 1)%nat with 1%nat by lia. cbn [seq].
      rewrite Step1, He, Nat.eqb_refl. reflexivity.
  - unfold getNextChallengerId. rewrite Hcur. cbn [truthy].
    apply String.eqb_neq in Hdne. now rewrite Hdne.
Qed.

(** ** What a handler can have done *)

Lemma performDealerSwitch_logs :
  forall (e : Env) (reason : Reason) (finalPot : num)
         (challengerName : option string) (c c' : Component),
    performDealerSwitch e reason finalPot challengerName c = Some c' ->
    exists newer : list (GameLog.t num),
      GameState.logs (gameState c')
      = (newer ++ GameState.logs (gameState c))%list
      /\ (List.length newer <= 2)%nat.
Proof.
  intros e reason finalPot challengerName c c' H.
  unfold performDealerSwitch in H.
  destruct (index _ (Z.rem _ _)); [|discriminate].
  destruct reason.
  - destruct (index _ (findIndex _ _)); [|discriminate].
    inversion H; subst. cbn [gameState GameState.logs].
    eexists [_]. split; [reflexivity|]. cbn. lia.
  - inversion H; subst. cbn [gameState GameState.logs].
    eexists [_; _]. split; [reflexivity|]. cbn. lia.
Qed.

(** The three ways [handleTransaction] can end: nothing booked, the bank
    bust, or a hand booked and the orbit bookkeeping run on it. *)
Lemma handleTransaction_cases :
  forall (e : Env) (w : Winner) (c c' : Component),
    handleTransaction e w c = Some c' ->
    gameState c' = gameState c
    \/ (w = player
        /\ (exists amount, betAmount c = Some amount
                           /\ busts (gameState c) amount = true)
        /\ performDealerSwitch e sbancato
             match betAmount c with Some a => a | None => fromZ 0 end
             (option_map Player.name
                (find (fun p => String.eqb (Player.id p)
                                           (selectedChallengerId c))
                      (GameState.players (gameState c)))) c = Some c')
    \/ (exists (amount : num) (challenger : Player.t) (state : GameState)
               (entry : GameLog.t num),
           betAmount c = Some amount
           /\ validAmount amount = true
           /\ find (fun p => String.eqb (Player.id p) (selectedChallengerId c))
                   (GameState.players (gameState c)) = Some challenger
           /\ (w = player -> exceedsPot (gameState c) amount = false
                             /\ busts (gameState c) amount = false)
           /\ gameState c'
              = updateRoundProgress e state (Player.id challenger)
           /\ GameState.players state = GameState.players (gameState c)
           /\ GameState.ante state = GameState.ante (gameState c)
           /\ GameState.currentDealerId state
              = GameState.currentDealerId (gameState c)
           /\ GameState.roundActive state
              = GameState.roundActive (gameState c)
           /\ GameState.gameRound state = GameState.gameRound (gameState c)
           /\ GameState.playersPlayedThisRound state
              = GameState.playersPlayedThisRound (gameState c)
           /\ GameState.logs state = entry :: GameState.logs (gameState c)
           /\ GameState.pot state
              = match w with
                | player =>
                    toCurrency (GameState.pot (gameState c) - amount)%num
                | dealer =>
                    toCurrency (GameState.pot (gameState c) + amount)%num
                end
           /\ betAmount c' = None
           /\ errorMsg c' = None).
Proof.
  intros e w c c' H. unfold handleTransaction in H.
  destruct (betAmount c) as [amount|] eqn:Hbet;
    [|left; now inversion H; subst].
  destruct (isNaN amount || _) eqn:Hvalid; [left; now inversion H; subst|].
  destruct (is_player w && _) eqn:Hfit; [left; now inversion H; subst|].
  destruct (find _ _) as [challenger|] eqn:Hfind;
    [|left; now inversion H; subst].
  assert (Hv : validAmount amount = true)
    by (unfold validAmount; now rewrite Hvalid).
  destruct w.
  - cbn [is_player andb] in Hfit.
    destruct (isApproximatelyZero _) eqn:Hbust.
    + right. left. split; [reflexivity|]. split; [now exists amount|].
      exact H.
    + right. right. inversion H; subst; clear H. unfold afterHand.
      cbn [gameState betAmount errorMsg].
      exists amount, challenger. do 2 eexists.
      split; [reflexivity|]. split; [exact Hv|]. split; [reflexivity|].
      split; [intros _; now split|]. split; [reflexivity|].
      cbn. repeat split.
  - right. right. inversion H; subst; clear H. unfold afterHand.
    cbn [gameState betAmount errorMsg].
    exists amount, challenger. do 2 eexists.
    split; [reflexivity|]. split; [exact Hv|]. split; [reflexivity|].
    split; [discriminate|]. split; [reflexivity|].
    cbn. repeat split.
Qed.

Lemma closeBank_cases :
  forall (e : Env) (c c' : Component),
    closeBank e c = Some c' ->
    c' = c
    \/ performDealerSwitch e collect (GameState.pot (gameState c)) None c
       = Some c'.
Proof.
  intros e c c' H. unfold closeBank in H.
  destruct (getCurrentDealer (gameState c));
    [now right|left; now inversion H].
Qed.

Lemma initFirstDealer_frame (g : GameState) :
  GameState.players (initFirstDealer g) = GameState.players g
  /\ GameState.pot (initFirstDealer g) = GameState.pot g
  /\ GameState.ante (initFirstDealer g) = GameState.ante g
  /\ GameState.roundActive (initFirstDealer g) = GameState.roundActive g
  /\ GameState.logs (initFirstDealer g) = GameState.logs g
  /\ GameState.gameRound (initFirstDealer g) = GameState.gameRound g
  /\ GameState.playersPlayedThisRound (initFirstDealer g)
     = GameState.playersPlayedThisRound g.
Proof.
  unfold initFirstDealer. destruct (_ && _); [|repeat split].
  destruct (GameState.players g) eqn:E; cbn; rewrite ?E; repeat split.
Qed.

Lemma initFirstDealer_truthy (g : GameState) :
  truthy (GameState.currentDealerId g) = true -> initFirstDealer g = g.
Proof. intros H. unfold initFirstDealer. now rewrite H. Qed.

(** ** The deal goes round *)

Lemma closeBank_step :
  forall (e : Env) (c : Component) (i : nat) (dlr : Player.t),
    NoDup (map Player.id (GameState.players (gameState c))) ->
    nth_error (GameState.players (gameState c)) i = Some dlr ->
    GameState.currentDealerId (gameState c) = Some (Player.id dlr) ->
    exists (c' : Component) (next : Player.t),
      closeBank e c = Some c'
      /\ nth_error (GameState.players (gameState c))
                   ((i + 1) mod List.length (GameState.players (gameState c)))
         = Some next
      /\ GameState.currentDealerId (gameState c') = Some (Player.id next)
      /\ GameState.players (gameState c')
         = map (flagDealer (Player.id next)) (GameState.players (gameState c)).
Proof.
  intros e c i dlr ND Hi Hd.
  destruct (performDealerSwitch_rotates e collect
              (GameState.pot (gameState c)) None c i dlr ND Hi Hd)
    as [next [Hnext Hswitch]].
  eexists. exists next. split; [|split; [exact Hnext|]].
  - unfold closeBank, getCurrentDealer. rewrite Hd.
    destruct (find (id_is (Some (Player.id dlr)))
                   (GameState.players (gameState c))) eqn:F.
    + exact Hswitch.
    + exfalso. eapply find_none in F.
      * cbn in F. rewrite String.eqb_refl in F. discriminate.
      * eapply nth_error_In; eassumption.
  - cbn. split; reflexivity.
Qed.

Lemma map_id_flagDealer (d : string) (l : list Player.t) :
  map Player.id (map (flagDealer d) l) = map Player.id l.
Proof. rewrite map_map. apply map_ext. reflexivity. Qed.

(** X10.  Closing the bank k times moves the deal k seats on in turn order,
    wrapping around, and changes nobody's identity; after as many closings
    as there are players the deal is back where it was. *)
Theorem the_deal_goes_round :
  forall (es : list Env) (c : Component) (i : nat) (dlr : Player.t),
    NoDup (map Player.id (GameState.players (gameState c))) ->
    nth_error (GameState.players (gameState c)) i = Some dlr ->
    GameState.currentDealerId (gameState c) = Some (Player.id dlr) ->
    exists c' : Component,
      closeBanks es c = Some c'
      /\ GameState.currentDealerId (gameState c')
         = option_map Player.id
             (nth_error (GameState.players (gameState c))
                ((i + List.length es)
                 mod List.length (GameState.players (gameState c))))
      /\ map identity (GameState.players (gameState c'))
         = map identity (GameState.players (gameState c))
      /\ (List.length es = List.length (GameState.players (gameState c)) ->
          GameState.currentDealerId (gameState c')
          = GameState.currentDealerId (gameState c)).
Proof.
  induction es as [|e rest IH]; intros c i dlr ND Hi Hd.
  - assert (Hlt : (i < List.length (GameState.players (gameState c)))%nat)
      by (apply nth_error_Some; congruence).
    exists c. cbn [closeBanks List.length]. rewrite Nat.add_0_r.
    rewrite Nat.mod_small, Hi by lia. cbn. repeat split.
    + now symmetry.
  - assert (Hlt : (i < List.length (GameState.players (gameState c)))%nat)
      by (apply nth_error_Some; congruence).
    destruct (closeBank_step e c i dlr ND Hi Hd)
      as (c1 & next & Hclose & Hnext & Hd1 & Hp1).
    destruct (IH c1
                 ((i + 1)
                  mod List.length (GameState.players (gameState c)))%nat
                 (flagDealer (Player.id next) next))
      as (c' & Hrun & Hd' & Hid' & _).
    + rewrite Hp1, map_id_flagDealer. exact ND.
    + rewrite Hp1, nth_error_map, Hnext. reflexivity.
    + rewrite Hd1. reflexivity.
    + exists c'. cbn [closeBanks]. rewrite Hclose.
      assert (Hdealer :
                GameState.currentDealerId (gameState c')
                = option_map Player.id
                    (nth_error (GameState.players (gameState c))
                       ((i + List.length (e :: rest))
                        mod List.length (GameState.players (gameState c))))).
      { rewrite Hd', Hp1, length_map, nth_error_map.
        rewrite Nat.Div0.add_mod_idemp_l.
        replace (i + 1 + List.length rest)%nat
          with (i + List.length (e :: rest))%nat by (cbn; lia).
        match goal with
        | |- context [nth_error ?l ?k] => destruct (nth_error l k)
        end; reflexivity. }
      split; [exact Hrun|]. split; [exact Hdealer|]. split.
      * rewrite Hid', Hp1. apply map_identity_flagDealer.
      * intros Hlen. rewrite Hdealer, Hlen.
        replace (i + List.length (GameState.players (gameState c)))%nat
          with (i + 1 * List.length (GameState.players (gameState c)))%nat
          by lia.
        rewrite Nat.Div0.mod_add, Nat.mod_small, Hi by lia.
        cbn. now symmetry.
Qed.

(** ** Exactly one dealer *)

Lemma dispatch_players_ids (ev : Event) (c : Component) :
  map Player.id (GameState.players (gameState (dispatch ev c)))
  = map Player.id (GameState.players (gameState c)).
Proof.
  assert (Hrot : forall c1 : Component,
             sameRoster (gameState c) (gameState c1) ->
             map Player.id
                 (GameState.players (initFirstDealer (gameState c1)))
             = map Player.id (GameState.players (gameState c))).
  { intros c1 [Hsame _].
    rewrite (proj1 (initFirstDealer_frame (gameState c1))).
    assert (Hfst : forall l, map Player.id l
                             = map (fun t => fst (fst t)) (map identity l)).
    { intros l. rewrite map_map. apply map_ext. reflexivity. }
    rewrite (Hfst (GameState.players (gameState c1))), Hsame, <- Hfst.
    reflexivity. }
  assert (Hsame0 : sameRoster (gameState c) (gameState c))
    by (split; reflexivity).
  destruct ev as [e|value|val|w e|e]; cbn [dispatch].
  - destruct (negb _); [|reflexivity]. cbn [afterRender gameState].
    rewrite (proj1 (initFirstDealer_frame _)). reflexivity.
  - destruct (_ && _); reflexivity.
  - destruct (GameState.roundActive _); reflexivity.
  - destruct (_ && _); [|reflexivity].
    destruct (handleTransaction e w c) as [c'|] eqn:H; [|reflexivity].
    cbn [afterRender gameState].
    destruct (handleTransaction_cases e w c c' H)
      as [Hsame|[(_ & _ & Hsw)|(a & ch & st & en & _ & _ & _ & _ & Hg
                                & Hp & _)]].
    + apply Hrot. rewrite Hsame. exact Hsame0.
    + apply Hrot. now apply (performDealerSwitch_frame _ _ _ _ _ _ Hsw).
    + rewrite (proj1 (initFirstDealer_frame _)), Hg.
      rewrite (proj1 (updateRoundProgress_frame _ _ _)), Hp. reflexivity.
  - destruct (_ && _); [|reflexivity].
    destruct (closeBank e c) as [c'|] eqn:H; [|reflexivity].
    cbn [afterRender gameState].
    destruct (closeBank_cases e c c' H) as [->|Hsw].
    + apply Hrot. exact Hsame0.
    + apply Hrot. now apply (performDealerSwitch_frame _ _ _ _ _ _ Hsw).
Qed.

Lemma session_players_ids (evs : list Event) (c : Component) :
  map Player.id (GameState.players (gameState (session evs c)))
  = map Player.id (GameState.players (gameState c)).
Proof.
  unfold session. revert c.
  induction evs as [|ev evs IH]; intros c; cbn [fold_left]; [reflexivity|].
  rewrite IH. apply dispatch_players_ids.
Qed.

Lemma flagged_once (d : string) (l : list Player.t) :
  NoDup (map Player.id l) ->
  In d (map Player.id l) ->
  (forall p, In p l -> Player.isDealer p = String.eqb (Player.id p) d) ->
  exists dlr : Player.t,
    find (id_is (Some d)) l = Some dlr
    /\ Player.id dlr = d
    /\ filter Player.isDealer l = [dlr].
Proof.
  induction l as [|x t IH]; intros ND Hin Hflag; [destruct Hin|].
  cbn [map] in ND, Hin. apply NoDup_cons_iff in ND. destruct ND as [Hx ND].
  cbn [find filter id_is]. rewrite (Hflag x (or_introl eq_refl)).
  destruct (String.eqb_spec (Player.id x) d) as [E|E].
  - exists x. repeat split; [exact E|]. f_equal.
    assert (Hnone : forall p, In p t -> Player.isDealer p = false).
    { intros p Hp. rewrite (Hflag p (or_intror Hp)).
      apply String.eqb_neq. intros Ep. apply Hx.
      rewrite E, <- Ep. now apply in_map. }
    clear - Hnone. induction t as [|y t IH]; [reflexivity|].
    cbn [filter]. rewrite (Hnone y (or_introl eq_refl)).
    apply IH. intros p Hp. apply Hnone. now right.
  - destruct Hin as [Hin|Hin]; [contradiction|].
    destruct (IH ND Hin) as (dlr & Hf & Hid & Hfl).
    { intros p Hp. apply Hflag. now right. }
    exists dlr. repeat split; assumption.
Qed.

(** X11.  On a table set up through the setup screen with distinct,
    non-empty player ids, after any session of user events exactly one
    player is flagged as dealer, and that player is the current dealer. *)
Theorem exactly_one_dealer_in_session :
  forall (e : Env) (names : list string) (anteAmount : num)
         (c0 : Component) (evs : list Event),
    initialize e names anteAmount = Some c0 ->
    NoDup (map (randomUUID e) (seq 0 (List.length names))) ->
    (forall i, (i < List.length names)%nat -> randomUUID e i <> "") ->
    exists dlr : Player.t,
      getCurrentDealer (gameState (session evs c0)) = Some dlr
      /\ GameState.currentDealerId (gameState (session evs c0))
         = Some (Player.id dlr)
      /\ filter Player.isDealer
                (GameState.players (gameState (session evs c0))) = [dlr].
Proof.
  intros e names anteAmount c0 evs Hinit ND Hids.
  unfold initialize, handleStart in Hinit.
  destruct (Nat.leb_spec 2 (List.length names)) as [Hlen|]; [|discriminate].
  inversion Hinit; subst c0; clear Hinit.
  assert (Hinv : tableInvariant (session evs (mount e names anteAmount))).
  { apply tableInvariant_session. apply mount_invariant; try assumption.
    intros ->. cbn in Hlen. lia. }
  assert (Hnd : NoDup
                  (map Player.id
                     (GameState.players
                        (gameState
                           (session evs (mount e names anteAmount)))))).
  { rewrite session_players_ids, mount_gameState.
    cbn [GameState.players]. rewrite initial_ids. exact ND. }
  destruct Hinv as (_ & (d & Hd & Hin & Hflag & _) & _).
  destruct (flagged_once d _ Hnd Hin Hflag) as (dlr & Hf & Hid & Hfl).
  exists dlr. unfold getCurrentDealer. rewrite Hd, Hid.
  repeat split; assumption.
Qed.

(** ** The log *)

Lemma dispatch_logs (ev : Event) (c : Component) :
  exists newer : list (GameLog.t num),
    GameState.logs (gameState (dispatch ev c))
    = (newer ++ GameState.logs (gameState c))%list
    /\ (List.length newer <= 2)%nat.
Proof.
  assert (Hnone : exists newer : list (GameLog.t num),
             GameState.logs (gameState c)
             = (newer ++ GameState.logs (gameState c))%list
             /\ (List.length newer <= 2)%nat)
    by (exists []; split; [reflexivity|cbn; lia]).
  destruct ev as [e|value|val|w e|e]; cbn [dispatch].
  - destruct (negb _); [|exact Hnone]. cbn [afterRender gameState].
    rewrite (proj1 (proj2 (proj2 (proj2 (proj2 (initFirstDealer_frame _)))))).
    exists [{| GameLog.id := randomUUID e 0;
               GameLog.timestamp := Date_now e 0;
               GameLog.message :=
                 GameLog.TuttiPagano (GameState.ante (gameState c));
               GameLog.amount :=
                 Some (toCurrency
                         (fromZ (Z.of_nat (List.length
                                   (GameState.players (gameState c))))
                          * GameState.ante (gameState c))%num);
               GameLog.type := GameLog.Ante |}].
    split; [reflexivity|cbn; lia].
  - destruct (_ && _); exact Hnone.
  - destruct (GameState.roundActive _); exact Hnone.
  - destruct (_ && _); [|exact Hnone].
    destruct (handleTransaction e w c) as [c'|] eqn:H; [|exact Hnone].
    cbn [afterRender gameState].
    rewrite (proj1 (proj2 (proj2 (proj2 (proj2 (initFirstDealer_frame _)))))).
    destruct (handleTransaction_cases e w c c' H)
      as [Hsame|[(_ & _ & Hsw)|(a & ch & st & en & _ & _ & _ & _ & Hg
                                & _ & _ & _ & _ & _ & _ & Hl & _)]].
    + rewrite Hsame. exact Hnone.
    + exact (performDealerSwitch_logs _ _ _ _ _ _ Hsw).
    + rewrite Hg.
      destruct (updateRoundProgress_cases e st (Player.id ch))
        as [(_ & _ & _ & ->)|(_ & _ & _ & ->)]; rewrite Hl.
      * exists [en]. split; [reflexivity|cbn; lia].
      * eexists [_; en]. split; [reflexivity|cbn; lia].
  - destruct (_ && _); [|exact Hnone].
    destruct (closeBank e c) as [c'|] eqn:H; [|exact Hnone].
    cbn [afterRender gameState].
    rewrite (proj1 (proj2 (proj2 (proj2 (proj2 (initFirstDealer_frame _)))))).
    destruct (closeBank_cases e c c' H) as [->|Hsw]; [exact Hnone|].
    exact (performDealerSwitch_logs _ _ _ _ _ _ Hsw).
Qed.

(** X12.  The log is only ever extended at its front: whatever the user
    does, the entries that were there stay, unchanged and in place, below at
    most two new entries per event. *)
Theorem history_is_only_extended :
  forall (evs : list Event) (c : Component),
    exists newer : list (GameLog.t num),
      GameState.logs (gameState (session evs c))
      = (newer ++ GameState.logs (gameState c))%list
      /\ (List.length newer <= 2 * List.length evs)%nat.
Proof.
  unfold session. induction evs as [|ev evs IH]; intros c; cbn [fold_left].
  - exists []. split; [reflexivity|cbn; lia].
  - destruct (IH (dispatch ev c)) as (later & Hl & Hn).
    destruct (dispatch_logs ev c) as (newer & Hd & Hm).
    exists (later ++ newer)%list. split.
    + rewrite Hl, Hd. apply app_assoc.
    + rewrite length_app. cbn [List.length]. lia.
Qed.

(** ** A new dealer starts from scratch *)

(** X13.  Whenever a user event leaves the table with another dealer than
    before, the new dealer's turn starts from scratch: empty pot, no active
    round, orbit counter 1 (so the all-in button is disabled), nobody marked
    as having played, and an empty hand form without error. *)
Theorem new_dealer_starts_from_scratch :
  forall (ev : Event) (c : Component),
    truthy (GameState.currentDealerId (gameState c)) = true ->
    GameState.currentDealerId (gameState (dispatch ev c))
    <> GameState.currentDealerId (gameState c) ->
    GameState.pot (gameState (dispatch ev c)) = fromZ 0
    /\ GameState.roundActive (gameState (dispatch ev c)) = false
    /\ GameState.gameRound (gameState (dispatch ev c)) = 1
    /\ GameState.playersPlayedThisRound (gameState (dispatch ev c)) = []
    /\ selectedChallengerId (dispatch ev c) = ""
    /\ betAmount (dispatch ev c) = None
    /\ errorMsg (dispatch ev c) = None.
Proof.
  intros ev c Htruthy.
  assert (Hswitch : forall e reason finalPot name c',
             performDealerSwitch e reason finalPot name c = Some c' ->
             GameState.pot (gameState (afterRender c')) = fromZ 0
             /\ GameState.roundActive (gameState (afterRender c')) = false
             /\ GameState.gameRound (gameState (afterRender c')) = 1
             /\ GameState.playersPlayedThisRound (gameState (afterRender c'))
                = []
             /\ selectedChallengerId (afterRender c') = ""
             /\ betAmount (afterRender c') = None
             /\ errorMsg (afterRender c') = None).
  { intros e reason finalPot name c' Hsw.
    destruct (performDealerSwitch_frame _ _ _ _ _ _ Hsw)
      as [_ (next & _ & _ & _ & Hpot & Hact & Hround & Hpl)].
    destruct (performDealerSwitch_form _ _ _ _ _ _ Hsw) as (Hs & Hb & He).
    destruct (initFirstDealer_frame (gameState c'))
      as (_ & Hpot' & _ & Hact' & _ & Hround' & Hpl').
    cbn [afterRender gameState selectedChallengerId betAmount errorMsg].
    rewrite Hpot', Hact', Hround', Hpl'. repeat split; assumption. }
  destruct ev as [e|value|val|w e|e]; cbn [dispatch].
  - destruct (negb _); [|intros H; now elim H].
    cbn [afterRender gameState]. intros H. exfalso. apply H.
    rewrite initFirstDealer_truthy; [reflexivity|exact Htruthy].
  - destruct (_ && _); intros H; now elim H.
  - destruct (GameState.roundActive _); intros H; now elim H.
  - destruct (_ && _); [|intros H; now elim H].
    destruct (handleTransaction e w c) as [c'|] eqn:Hh;
      [|intros H; now elim H].
    destruct (handleTransaction_cases e w c c' Hh)
      as [Hsame|[(_ & _ & Hsw)|(a & ch & st & en & _ & _ & _ & _ & Hg
                                & _ & _ & Hd & _)]].
    + cbn [afterRender gameState]. intros H. exfalso. apply H.
      rewrite Hsame. now rewrite initFirstDealer_truthy.
    + intros _. exact (Hswitch _ _ _ _ _ Hsw).
    + cbn [afterRender gameState]. intros H. exfalso. apply H.
      assert (Hkeep : GameState.currentDealerId (gameState c')
                      = GameState.currentDealerId (gameState c)).
      { rewrite Hg.
        destruct (updateRoundProgress_frame e st (Player.id ch))
          as (_ & _ & _ & -> & _). exact Hd. }
      rewrite initFirstDealer_truthy; [exact Hkeep|now rewrite Hkeep].
  - destruct (_ && _); [|intros H; now elim H].
    destruct (closeBank e c) as [c'|] eqn:Hc; [|intros H; now elim H].
    destruct (closeBank_cases e c c' Hc) as [->|Hsw].
    + cbn [afterRender gameState]. intros H. exfalso. apply H.
      now rewrite initFirstDealer_truthy.
    + intros _. exact (Hswitch _ _ _ _ _ Hsw).
Qed.

(** ** Between two rounds *)

(** The form after [handleTransaction]: left as it was, left with the
    message of the pot check, or emptied. *)
Lemma handleTransaction_form :
  forall (e : Env) (w : Winner) (c c' : Component),
    handleTransaction e w c = Some c' ->
    c' = c
    \/ (exists amount : num,
          betAmount c = Some amount
          /\ exceedsPot (gameState c) amount = true
          /\ w = player)
    \/ (betAmount c' = None /\ errorMsg c' = None).
Proof.
  intros e w c c' H. unfold handleTransaction in H.
  destruct (betAmount c) as [amount|] eqn:Hbet;
    [|left; now inversion H].
  destruct (isNaN amount || _); [left; now inversion H|].
  destruct (is_player w && _) eqn:Hfit.
  { right. left. exists amount. apply andb_prop in Hfit.
    destruct Hfit as [Hw Hfit]. split; [reflexivity|]. split; [exact Hfit|].
    now destruct w. }
  destruct (find _ _); [|left; now inversion H].
  right. right. destruct w.
  - destruct (isApproximatelyZero _).
    + now destruct (performDealerSwitch_form _ _ _ _ _ _ H) as (_ & ? & ?).
    + inversion H; subst. now split.
  - inversion H; subst. now split.
Qed.

Lemma switch_betweenRounds :
  forall (e : Env) (reason : Reason) (finalPot : num)
         (challengerName : option string) (c c' : Component),
    performDealerSwitch e reason finalPot challengerName c = Some c' ->
    betweenRounds (afterRender c').
Proof.
  intros e reason finalPot name c c' Hsw.
  destruct (performDealerSwitch_frame _ _ _ _ _ _ Hsw)
    as [_ (next & _ & _ & _ & Hpot & Hact & Hround & Hpl)].
  destruct (performDealerSwitch_form _ _ _ _ _ _ Hsw) as (Hs & Hb & He).
  destruct (initFirstDealer_frame (gameState c'))
    as (_ & Hpot' & _ & Hact' & _ & Hround' & Hpl').
  unfold betweenRounds.
  cbn [afterRender gameState selectedChallengerId betAmount errorMsg].
  rewrite Hpot', Hround', Hpl'. repeat split; assumption.
Qed.

Lemma dispatch_betweenRounds (ev : Event) (c : Component) :
  (GameState.roundActive (gameState c) = false -> betweenRounds c) ->
  GameState.roundActive (gameState (dispatch ev c)) = false ->
  betweenRounds (dispatch ev c).
Proof.
  intros Inv.
  assert (Hact : forall c', gameState c' = gameState c ->
                   GameState.roundActive (gameState c) = true ->
                   GameState.roundActive (gameState (afterRender c')) = false ->
                   betweenRounds (afterRender c')).
  { intros c' Hg Ht Hf. cbn [afterRender gameState] in Hf.
    rewrite (proj1 (proj2 (proj2 (proj2 (initFirstDealer_frame _))))) in Hf.
    rewrite Hg in Hf. congruence. }
  destruct ev as [e|value|val|w e|e]; cbn [dispatch].
  - destruct (GameState.roundActive (gameState c)) eqn:Ha; cbn [negb];
      [congruence|].
    cbn [afterRender gameState]. intros H.
    rewrite (proj1 (proj2 (proj2 (proj2 (initFirstDealer_frame _))))) in H.
    discriminate H.
  - destruct (GameState.roundActive (gameState c)) eqn:Ha; cbn [andb];
      [|intros _; now apply Inv].
    destruct (includes _ _); cbn [gameState]; congruence.
  - destruct (GameState.roundActive (gameState c)) eqn:Ha;
      [|intros _; now apply Inv].
    cbn [handleBetChange gameState]. congruence.
  - destruct (GameState.roundActive (gameState c)) eqn:Ha; cbn [andb];
      [|intros _; now apply Inv].
    destruct (negb _); [|congruence].
    destruct (handleTransaction e w c) as [c'|] eqn:Hh; [|congruence].
    destruct (handleTransaction_cases e w c c' Hh)
      as [Hsame|[(_ & _ & Hsw)|(a & ch & st & en & _ & _ & _ & _ & Hg
                                & _ & _ & _ & Hr & _)]].
    + now apply Hact.
    + intros _. exact (switch_betweenRounds _ _ _ _ _ _ Hsw).
    + cbn [afterRender gameState]. intros H.
      rewrite (proj1 (proj2 (proj2 (proj2 (initFirstDealer_frame _))))) in H.
      rewrite Hg in H.
      destruct (updateRoundProgress_frame e st (Player.id ch))
        as (_ & _ & _ & _ & Hua).
      congruence.
  - destruct (GameState.roundActive (gameState c)) eqn:Ha; cbn [andb];
      [|intros _; now apply Inv].
    destruct (negb _); [|congruence].
    destruct (closeBank e c) as [c'|] eqn:Hc; [|congruence].
    destruct (closeBank_cases e c c' Hc) as [->|Hsw].
    + now apply Hact.
    + intros _. exact (switch_betweenRounds _ _ _ _ _ _ Hsw).
Qed.

(** X14.  Whenever the card of a mounted table shows the start button (no
    round is active), the pot is empty, the orbit counter is 1 with nobody
    marked as having played, and the hand form is empty: a round can only
    end by a change of dealer, which wipes all of these. *)
Theorem start_button_means_empty_pot :
  forall (evs : list Event) (e : Env) (names : list string) (ante : num),
    GameState.roundActive (gameState (session evs (mount e names ante)))
    = false ->
    betweenRounds (session evs (mount e names ante)).
Proof.
  intros evs e names ante.
  assert (H0 : GameState.roundActive (gameState (mount e names ante)) = false
               -> betweenRounds (mount e names ante)).
  { intros _. unfold betweenRounds. rewrite mount_gameState. cbn.
    repeat split. }
  revert H0. generalize (mount e names ante).
  unfold session. induction evs as [|ev evs IH]; intros c Inv;
    cbn [fold_left].
  - exact Inv.
  - apply IH. apply dispatch_betweenRounds. exact Inv.
Qed.

End TableFacts.

(** * More about whole cents in binary64 *)

Section WholeCentsMore.

Lemma anteTable_checked :
  forallZ 0 (Z.to_nat (playersBound + 1)) anteRowOk = true.
Proof. vm_compute. reflexivity. Qed.

(** The antes of [n] players at [a] cents each are rounded to [n * a]
    cents. *)
Lemma cents_collected (n a : Z) :
  1 <= n <= playersBound -> 0 <= a -> n * a <= centsBound + 1 ->
  toCurrency (fromZ (Number := Binary64.number) n * cents a)%num
  = cents (n * a).
Proof.
  intros Hn Ha Hna. pose proof anteTable_checked as H.
  apply (forallZ_spec anteRowOk _ _ n) in H; [|rewrite Z2Nat.id; lia].
  unfold anteRowOk in H.
  apply (forallZ_spec _ _ _ a) in H; [|rewrite Z2Nat.id; nia].
  unfold anteOk in H.
  destruct (Z.leb_spec (n * a) (centsBound + 1)); [|lia].
  now apply FloatAxioms.Leibniz.eqb_spec.
Qed.

(** ** Rounding to cents *)

(** X15.  In binary64, an amount that [Math.round] takes to [k] cents, with
    [k] from -1 up to the bound of the table, is rounded by [toCurrency] to
    the double of [k] cents, and rounding that again changes nothing. *)
Theorem toCurrency_idempotent_on_cents :
  forall (x : float) (k : Z),
    Math_round (x * fromZ 100)%num = fromZ k ->
    -1 <= k <= centsBound ->
    toCurrency x = cents k
    /\ toCurrency (toCurrency x) = toCurrency x.
Proof.
  intros x k Hround Hk.
  assert (H : toCurrency x = cents k)
    by (unfold toCurrency, cents; now rewrite Hround).
  split; [exact H|]. rewrite H. now apply toCurrency_cents.
Qed.

(** ** When the bank is bust *)

(** X16.  In binary64 and in whole cents, a challenger win of an amount up
    to a cent above the pot busts the bank exactly when the amount is the
    pot; a cent more leaves -0.01, which is not a bust. Off the whole cents
    the line is elsewhere: 0.605 on a pot of 0.60 leaves -0.01 as well. *)
Theorem bust_is_exact_in_whole_cents :
  (forall (g : GameState.t float) (p a : Z),
      GameState.pot g = cents p ->
      0 <= p <= centsBound ->
      1 <= a <= p + 1 ->
      busts g (cents a) = (a =? p)
      /\ toCurrency (GameState.pot g - cents a)%num = cents (p - a))
  /\ GameState.pot (gameState roundABC) = 0.6%float
  /\ busts (gameState roundABC) 0.605%float = false
  /\ toCurrency (GameState.pot (gameState roundABC) - 0.605%float)%num
     = (-0.01)%float.
Proof.
  split.
  - intros g p a Hpot Hp Ha. unfold busts. rewrite Hpot.
    pose proof (cents_taken (p - a) a ltac:(lia) ltac:(lia) ltac:(lia))
      as Ht.
    replace (p - a + a) with p in Ht by lia. rewrite Ht.
    split; [|reflexivity].
    rewrite isApproximatelyZero_cents by lia.
    destruct (Z.eqb_spec (p - a) 0); destruct (Z.eqb_spec a p);
      try reflexivity; lia.
  - repeat split; vm_compute; reflexivity.
Qed.

(** ** The pot check *)

(** X17.  In binary64 and in whole cents, the pot check of the result
    handler accepts every amount that is not above the pot and refuses every
    amount that is two cents or more above it; an amount of one cent more
    than the pot is accepted on some pots (0.11 on 0.10) and refused on
    others (0.61 on 0.60). *)
Theorem pot_check_in_whole_cents :
  (forall (g : GameState.t float) (p a : Z),
      GameState.pot g = cents p ->
      0 <= p <= centsBound ->
      1 <= a <= centsBound ->
      (a <= p -> exceedsPot g (cents a) = false)
      /\ (p + 2 <= a -> exceedsPot g (cents a) = true))
  /\ GameState.pot (gameState (dispatch (ClickStartRound demoEnv) tableAB))
     = cents 10
  /\ exceedsPot (gameState (dispatch (ClickStartRound demoEnv) tableAB))
                (cents 11) = false
  /\ GameState.pot (gameState roundABC) = cents 60
  /\ exceedsPot (gameState roundABC) (cents 61) = true.
Proof.
  split.
  - intros g p a Hpot Hp Ha. unfold exceedsPot. rewrite Hpot. split.
    + intros Hle.
      pose proof (cents_accepted (p - a) a ltac:(lia) ltac:(lia) ltac:(lia))
        as H.
      replace (p - a + a) with p in H by lia. exact H.
    + intros Hge.
      pose proof (cents_refused (a - p) p ltac:(lia) ltac:(lia) ltac:(lia))
        as H.
      replace (a - p + p) with a in H by lia. exact H.
  - repeat split; vm_compute; reflexivity.
Qed.

(** ** Collecting the antes *)

(** X18.  In binary64, with the pot and the ante in whole cents,
    [startRound] collects the antes to the cent: the pot grows by the number
    of players times the ante, which is the amount of the one log entry the
    round start adds, and the round is active. *)
Theorem antes_are_collected_to_the_cent :
  forall (e : Env) (c : Component float) (p a : Z),
    GameState.pot (gameState c) = cents p ->
    GameState.ante (gameState c) = cents a ->
    -1 <= p ->
    0 <= a ->
    (1 <= List.length (GameState.players (gameState c)))%nat ->
    Z.of_nat (List.length (GameState.players (gameState c)))
    <= playersBound ->
    p + Z.of_nat (List.length (GameState.players (gameState c))) * a
    <= centsBound ->
    exists entry : GameLog.t float,
      GameState.logs (gameState (startRound e c))
      = entry :: GameState.logs (gameState c)
      /\ GameLog.type entry = GameLog.Ante
      /\ GameLog.amount entry
         = Some (cents (Z.of_nat (List.length
                                    (GameState.players (gameState c))) * a))
      /\ GameState.pot (gameState (startRound e c))
         = cents (p + Z.of_nat (List.length
                                  (GameState.players (gameState c))) * a)
      /\ GameState.roundActive (gameState (startRound e c)) = true.
Proof.
  intros e c p a Hpot Hante Hp Ha Hn1 Hn Hsum.
  set (n := Z.of_nat (List.length (GameState.players (gameState c)))) in *.
  assert (Hna : 0 <= n * a) by nia.
  assert (Htotal : toCurrency (fromZ n * GameState.ante (gameState c))%num
                   = cents (n * a)).
  { rewrite Hante. apply cents_collected; lia. }
  unfold startRound, addLog.
  cbn [gameState GameState.logs GameState.pot GameState.roundActive].
  fold n. rewrite Htotal, Hpot.
  eexists. split; [reflexivity|].
  cbn [GameLog.type GameLog.amount]. split; [reflexivity|].
  split; [reflexivity|]. split; [|reflexivity].
  apply cents_paid; lia.
Qed.

(** ** Hands in whole cents *)

Lemma playHand_in_cents (g : GameState.t float) (h : CentHand) (p : Z) :
  GameState.pot g = cents p ->
  -1 <= p <= centsBound ->
  1 <= howMuch h <= centsBound ->
  p + centChange h <= centsBound ->
  nonBustHand g (handOf h) = true ->
  In (who h) (map Player.id (GameState.players g)) ->
  exists g' : GameState.t float,
    playHand (handOf h) g = Some g'
    /\ GameState.players g' = GameState.players g
    /\ GameState.pot g' = cents (p + centChange h)
    /\ -1 <= p + centChange h.
Proof.
  intros Hpot Hp Ha Hsum Hnb Hin.
  destruct (playHand_nonBust g (handOf h) Hnb Hin)
    as (st & en & Hplay & Hpl & _ & _ & _ & _ & _ & Hst).
  destruct (nonBustHand_checks g (handOf h) Hnb) as [_ Hout].
  eexists. split; [exact Hplay|].
  destruct (updateRoundProgress_frame (env (handOf h)) st
              (challengerId (handOf h))) as (-> & _ & -> & _).
  split; [exact Hpl|]. rewrite Hst, Hpot. unfold centChange in *.
  cbn [handOf outcome amount] in *.
  destruct (result h).
  - destruct Hout as [Hfit _].
    pose proof (accepted_amount g p (howMuch h) Hpot Hp Ha Hfit) as Hle.
    pose proof (cents_taken (p - howMuch h) (howMuch h)
                  ltac:(lia) ltac:(lia) ltac:(lia)) as Ht.
    replace (p - howMuch h + howMuch h) with p in Ht by lia.
    split; [exact Ht|lia].
  - split; [apply cents_paid; lia|lia].
Qed.

(** X19.  In binary64, hands in whole cents are booked to the cent: after
    any sequence of non-bust hands of known players, on a pot in whole cents
    and with all pots on the way within the bound of the table, the pot is
    the old pot plus what the challengers lost minus what they won, exactly. *)
Theorem whole_cent_hands_add_up :
  forall (hs : list CentHand) (g : GameState.t float) (p : Z),
    GameState.pot g = cents p ->
    -1 <= p <= centsBound ->
    withinBound p hs = true ->
    Forall (fun h => In (who h) (map Player.id (GameState.players g))) hs ->
    allNonBust (map handOf hs) g = true ->
    exists g' : GameState.t float,
      playHands (map handOf hs) g = Some g'
      /\ GameState.pot g' = cents (p + netCents hs).
Proof.
  induction hs as [|h hs IH]; intros g p Hpot Hp Hin Hknown Hnb.
  - exists g. split; [reflexivity|]. cbn [netCents fold_right].
    now rewrite Z.add_0_r.
  - cbn [withinBound] in Hin.
    apply andb_prop in Hin. destruct Hin as [Hin Hrest].
    apply andb_prop in Hin. destruct Hin as [Hin Hsum].
    apply andb_prop in Hin. destruct Hin as [Ha1 Ha2].
    apply Z.leb_le in Ha1, Ha2, Hsum.
    cbn [map allNonBust] in Hnb. apply andb_prop in Hnb.
    destruct Hnb as [Hh Hnbrest].
    inversion Hknown as [|? ? Hk Hks]; subst.
    destruct (playHand_in_cents g h p Hpot Hp ltac:(lia) Hsum Hh Hk)
      as (g1 & Hplay & Hpl & Hpot1 & Hlow).
    rewrite Hplay in Hnbrest. cbn [map playHands]. rewrite Hplay.
    destruct (IH g1 (p + centChange h) Hpot1 ltac:(lia) Hrest)
      as (g' & Hplays & Hpot').
    + now rewrite Hpl.
    + exact Hnbrest.
    + exists g'. split; [exact Hplays|]. rewrite Hpot'.
      unfold netCents. cbn [fold_right]. f_equal. lia.
Qed.

End WholeCentsMore.

(** * More examples *)

Section MoreWitnesses.

(** X9, an example.  After B's hand on the table of A, B, C the form
    suggests C. *)
Lemma next_challenger_in_turn_order_witness :
  option_map Player.id (nth_error (GameState.players (gameState roundABC)) 2)
  = Some (getNextChallengerId (gameState roundABC) (Some "b")).
Proof.
  assert (ND : NoDup (map Player.id (GameState.players (gameState roundABC))))
    by (vm_compute; distinct_strings).
  refine (proj1 (next_challenger_in_turn_order
                   (gameState roundABC) 0%nat 1%nat
                   {| Player.id := "a"; Player.name := "A";
                      Player.isDealer := true; Player.roundsPlayed := 0 |}
                   {| Player.id := "b"; Player.name := "B";
                      Player.isDealer := false; Player.roundsPlayed := 0 |}
                   ND _ _ _ _ _) _).
  - reflexivity.
  - reflexivity.
  - discriminate.
  - reflexivity.
  - discriminate.
  - vm_compute. discriminate.
Defined.

(** X10, an example.  Three closings on the table of A, B, C bring the deal
    back to A. *)
Lemma the_deal_goes_round_witness :
  exists c' : Component float,
    closeBanks [demoEnv; demoEnv; demoEnv] roundABC = Some c'
    /\ GameState.currentDealerId (gameState c') = Some "a".
Proof.
  destruct (the_deal_goes_round (N := Binary64.number)
              [demoEnv; demoEnv; demoEnv] roundABC 0%nat
              {| Player.id := "a"; Player.name := "A";
                 Player.isDealer := true; Player.roundsPlayed := 0 |})
    as (c' & H1 & H2 & _); try (vm_compute; reflexivity).
  - vm_compute. distinct_strings.
  - exists c'. split; [exact H1|exact H2].
Defined.

(** X11, an example.  After the antes and a closing of the bank one player
    of A, B, C is flagged as dealer. *)
Lemma exactly_one_dealer_in_session_witness :
  exists dlr : Player.t,
    filter Player.isDealer
      (GameState.players
         (gameState (session [ClickStartRound demoEnv; ClickCloseBank demoEnv]
                             tableABC)))
    = [dlr].
Proof.
  destruct (exactly_one_dealer_in_session (N := Binary64.number)
              demoEnv ["A"; "B"; "C"] 0.2%float tableABC
              [ClickStartRound demoEnv; ClickCloseBank demoEnv])
    as (dlr & _ & _ & H).
  - reflexivity.
  - vm_compute. distinct_strings.
  - intros i _. cbn. discriminate.
  - exists dlr. exact H.
Defined.

(** X13, an example.  A closes the bank: B's turn starts with an empty pot. *)
Lemma new_dealer_starts_from_scratch_witness :
  GameState.pot (gameState (dispatch (ClickCloseBank demoEnv) roundABC))
  = 0%float
  /\ GameState.roundActive
       (gameState (dispatch (ClickCloseBank demoEnv) roundABC)) = false.
Proof.
  destruct (new_dealer_starts_from_scratch (N := Binary64.number)
              (ClickCloseBank demoEnv) roundABC)
    as (H1 & H2 & _).
  - vm_compute. reflexivity.
  - vm_compute. discriminate.
  - split; [exact H1|exact H2].
Defined.

(** X14, an example.  After the antes and a closing of the bank the start
    button is back. *)
Lemma start_button_means_empty_pot_witness :
  betweenRounds
    (session [ClickStartRound demoEnv; ClickCloseBank demoEnv] tableABC).
Proof.
  apply (start_button_means_empty_pot (N := Binary64.number)
           [ClickStartRound demoEnv; ClickCloseBank demoEnv]
           demoEnv ["A"; "B"; "C"] 0.2%float).
  vm_compute. reflexivity.
Defined.

(** X1, an example.  The first of the two default names dragged onto the
    second row. *)
Lemma drop_keeps_the_roster_witness :
  exists s' : Setup float,
    handleDrop 1 (handleDragStart 0 (initialSetup (N := Binary64.number)))
    = Some s'
    /\ nth_error (names s') 1 = Some "Giocatore 1".
Proof.
  destruct (drop_keeps_the_roster
              (handleDragStart 0 (initialSetup (N := Binary64.number))) 0 1
              "Giocatore 1")
    as (s' & H1 & _ & _ & H4 & _).
  - reflexivity.
  - reflexivity.
  - cbn. lia.
  - exists s'. split; [exact H1|exact H4].
Defined.

(** X3, an example.  Removing the first default name leaves one row. *)
Lemma removePlayer_takes_out_one_row_witness :
  S (List.length (names (removePlayer 0 (initialSetup (N := Binary64.number)))))
  = 2%nat.
Proof.
  refine (proj1 (removePlayer_takes_out_one_row
                   (initialSetup (N := Binary64.number)) 0 _)).
  cbn. lia.
Defined.

(** X5, an example.  "Carla" is added, the second row is chosen for editing,
    the first row is removed and "Dino" is saved: the second player keeps
    the name and Carla is renamed. *)
Lemma edit_lands_on_the_row_not_the_player_witness :
  nth_error
    (names
       (setupSession (N := Binary64.number) (fun s => s)
          [ClickEdit 1; ClickRemove 0; TypeEditValue "Dino"; ClickSave]
          (setupSession (fun s => s) [TypeNewName "Carla"; SubmitNewName]
                        initialSetup))) 0
  = Some "Giocatore 2"
  /\ nth_error
       (names
          (setupSession (N := Binary64.number) (fun s => s)
             [ClickEdit 1; ClickRemove 0; TypeEditValue "Dino"; ClickSave]
             (setupSession (fun s => s) [TypeNewName "Carla"; SubmitNewName]
                           initialSetup))) 1
     = Some "Dino".
Proof.
  assert (Hrow : (0 < 1)%nat) by lia.
  assert (Hname : "Dino" <> "") by discriminate.
  destruct (edit_lands_on_the_row_not_the_player (N := Binary64.number)
              (fun s => s)
              (setupSession (fun s => s) [TypeNewName "Carla"; SubmitNewName]
                            initialSetup)
              1 0 "Dino" "Giocatore 2" "Carla"
              eq_refl Hrow eq_refl eq_refl Hname)
    as (H1 & H2 & _).
  split; [exact H1|exact H2].
Defined.

(** X6, an example.  The second default name is renamed to "Dino". *)
Lemma edit_renames_one_row_witness :
  nth_error
    (names (setupSession (N := Binary64.number) (fun s => s)
              [ClickEdit 1; TypeEditValue "Dino"; ClickSave] initialSetup)) 1
  = Some "Dino".
Proof.
  assert (Hrow : (1 < List.length
                        (names (initialSetup (N := Binary64.number))))%nat)
    by (cbn; lia).
  exact (proj2 (proj2 (proj2
           (edit_renames_one_row (N := Binary64.number) (fun s => s)
              initialSetup 1 "Dino" eq_refl Hrow)))).
Defined.

(** X7, an example.  A name is added, the first row removed, the second
    renamed, the two rows swapped and the ante changed; then the start
    button is clicked. *)
Lemma setup_hands_over_named_players_witness :
  clickStart
    (setupSession (N := Binary64.number) (fun s => s)
       [TypeNewName "Carla"; SubmitNewName; ClickRemove 0; ClickEdit 1;
        TypeEditValue "Dino"; ClickSave; Drag 0 1;
        ChangeAnte (Some 0.5%float)]
       initialSetup)
  = Some (["Dino"; "Giocatore 2"], 0.5%float)
  /\ (2 <= List.length ["Dino"; "Giocatore 2"])%nat
  /\ Forall (fun n => n <> "") ["Dino"; "Giocatore 2"].
Proof.
  assert (H : clickStart
                (setupSession (N := Binary64.number) (fun s => s)
                   [TypeNewName "Carla"; SubmitNewName; ClickRemove 0;
                    ClickEdit 1; TypeEditValue "Dino"; ClickSave; Drag 0 1;
                    ChangeAnte (Some 0.5%float)]
                   initialSetup)
              = Some (["Dino"; "Giocatore 2"], 0.5%float))
    by (vm_compute; reflexivity).
  split; [exact H|].
  exact (setup_hands_over_named_players (N := Binary64.number) (fun s => s)
           _ _ _ H).
Defined.

(** X15, an example.  0.123 is rounded to 12 cents. *)
Lemma toCurrency_idempotent_on_cents_witness :
  toCurrency (toCurrency 0.123%float) = toCurrency 0.123%float.
Proof.
  assert (Hk : -1 <= 12 <= centsBound) by (vm_compute; split; discriminate).
  refine (proj2 (toCurrency_idempotent_on_cents 0.123%float 12 _ Hk)).
  vm_compute. reflexivity.
Defined.

(** X16, an example.  On the pot of 0.60 an amount of 0.60 busts the bank. *)
Lemma bust_is_exact_in_whole_cents_witness :
  busts (gameState roundABC) (cents 60) = true.
Proof.
  assert (Hp : 0 <= 60 <= centsBound) by (vm_compute; split; discriminate).
  assert (Ha : 1 <= 60 <= 60 + 1) by lia.
  assert (Hpot : GameState.pot (gameState roundABC) = cents 60)
    by (vm_compute; reflexivity).
  exact (proj1 (proj1 bust_is_exact_in_whole_cents (gameState roundABC)
                  60 60 Hpot Hp Ha)).
Defined.

(** X17, an example.  On the pot of 0.60 an amount of 0.62 is refused. *)
Lemma pot_check_in_whole_cents_witness :
  exceedsPot (gameState roundABC) (cents 62) = true.
Proof.
  assert (Hp : 0 <= 60 <= centsBound) by (vm_compute; split; discriminate).
  assert (Ha : 1 <= 62 <= centsBound) by (vm_compute; split; discriminate).
  assert (Hpot : GameState.pot (gameState roundABC) = cents 60)
    by (vm_compute; reflexivity).
  assert (Hover : 60 + 2 <= 62) by lia.
  exact (proj2 (proj1 pot_check_in_whole_cents (gameState roundABC) 60 62
                  Hpot Hp Ha) Hover).
Defined.

(** X18, an example.  A, B and C pay 0.20 each into the empty pot. *)
Lemma antes_are_collected_to_the_cent_witness :
  GameState.pot (gameState (startRound demoEnv tableABC)) = cents 60.
Proof.
  assert (Hpot : GameState.pot (gameState tableABC) = cents 0)
    by (vm_compute; reflexivity).
  assert (Hante : GameState.ante (gameState tableABC) = cents 20)
    by (vm_compute; reflexivity).
  assert (Hn1 : (1 <= List.length (GameState.players (gameState tableABC)))%nat)
    by (vm_compute; lia).
  assert (Hn : Z.of_nat (List.length (GameState.players (gameState tableABC)))
               <= playersBound) by (vm_compute; discriminate).
  assert (Hsum : 0 + Z.of_nat (List.length
                                 (GameState.players (gameState tableABC)))
                     * 20 <= centsBound) by (vm_compute; discriminate).
  destruct (antes_are_collected_to_the_cent demoEnv tableABC 0 20
              Hpot Hante ltac:(lia) ltac:(lia) Hn1 Hn Hsum)
    as (entry & _ & _ & _ & H & _).
  exact H.
Defined.

(** X19, an example.  B loses 0.10 and C wins 0.25 on the pot of 0.60: the
    pot is 0.45. *)
Lemma whole_cent_hands_add_up_witness :
  exists g' : GameState.t float,
    playHands
      (map handOf
         [ {| who := "b"; howMuch := 10; result := dealer;
              drawn := demoEnv |};
           {| who := "c"; howMuch := 25; result := player;
              drawn := demoEnv |} ])
      (gameState roundABC) = Some g'
    /\ GameState.pot g' = cents 45.
Proof.
  assert (Hpot : GameState.pot (gameState roundABC) = cents 60)
    by (vm_compute; reflexivity).
  assert (Hp : -1 <= 60 <= centsBound) by (vm_compute; split; discriminate).
  destruct (whole_cent_hands_add_up
              [ {| who := "b"; howMuch := 10; result := dealer;
                   drawn := demoEnv |};
                {| who := "c"; howMuch := 25; result := player;
                   drawn := demoEnv |} ]
              (gameState roundABC) 60 Hpot Hp)
    as (g' & H1 & H2).
  - vm_compute. reflexivity.
  - constructor; [vm_compute; tauto|].
    constructor; [vm_compute; tauto|constructor].
  - vm_compute. reflexivity.
  - exists g'. split; [exact H1|exact H2].
Defined.

End MoreWitnesses.
